(** * open_source_lrm: the bounded conversation memory and the reasoning driver

    A shallow embedding of [1_open_source_o1_dspy.py]: the [Message] and
    [Memory] classes, the tagged-span extraction helpers and the driver loop
    of [LargeReasoningModel], followed by the properties of the
    specification stated and settled on that embedding.

    Python values are modelled as follows.
    - [str] is a sequence of Unicode code points ([N]).
    - [int] is [Z]; [len] returns a [Z].
    - a [list] is a Rocq [list]; slices are written out with their
      negative-index behaviour.
    - the dictionary built by [Message.to_dict] has the two fixed keys
      ["role"] and ["content"] and is a record. *)

From Stdlib Require Import ZArith NArith List Bool Lia String Ascii.
From Stdlib Require Import DecimalString.
Import ListNotations.

Open Scope Z_scope.

(** ** Python strings *)

Definition char := N.
Definition str := list char.

(** A literal of the source, written as a Rocq string of ASCII characters. *)
Definition lit (s : string) : str :=
  map N_of_ascii (list_ascii_of_string s).

Fixpoint str_eqb (a b : str) : bool :=
  match a, b with
  | [], [] => true
  | x :: a', y :: b' => N.eqb x y && str_eqb a' b'
  | _, _ => false
  end.

(** [len(x)], a Python [int]. *)
Definition len {A : Type} (l : list A) : Z := Z.of_nat (List.length l).

(** The characters on which [str.split()] and [str.strip()] (no argument)
    cut: the ASCII table of CPython and the Unicode White_Space code points
    above it. *)
Definition is_space (c : char) : bool :=
  ((9 <=? c) && (c <=? 13) || (28 <=? c) && (c <=? 32)
   || (c =? 133) || (c =? 160) || (c =? 5760)
   || (8192 <=? c) && (c <=? 8202)
   || (c =? 8232) || (c =? 8233) || (c =? 8239) || (c =? 8287)
   || (c =? 12288))%N.

(** [s.split()]: [cur] is the token being read, in order. *)
Fixpoint split_from (cur : str) (s : str) : list str :=
  match s with
  | [] => match cur with [] => [] | _ => [cur] end
  | c :: s' =>
      if is_space c
      then match cur with
           | [] => split_from [] s'
           | _ => cur :: split_from [] s'
           end
      else split_from (cur ++ [c]) s'
  end.

Definition split (s : str) : list str := split_from [] s.

(** [sep.join(parts)]. *)
Fixpoint join (sep : str) (parts : list str) : str :=
  match parts with
  | [] => []
  | [p] => p
  | p :: rest => p ++ sep ++ join sep rest
  end.

(** [s.strip()]. *)
Fixpoint lstrip (s : str) : str :=
  match s with
  | c :: s' => if is_space c then lstrip s' else s
  | [] => []
  end.

Definition rstrip (s : str) : str := rev (lstrip (rev s)).

Definition strip (s : str) : str := rstrip (lstrip s).

(** [s.lower()], on the ASCII capitals.  A code point above 127 lowers to
    code points above 127 or to the letters [i] and [k], never to [e], [r]
    or [o]: the only use of [lower] in the source, the test for the word
    [error], gives the same answer on this model. *)
Definition lower_char (c : char) : char :=
  if ((65 <=? c) && (c <=? 90))%N then (c + 32)%N else c.

Definition lower (s : str) : str := map lower_char s.

(** [s[len(pat):]] when [s.startswith(pat)]. *)
Fixpoint strip_prefix (pat s : str) : option str :=
  match pat, s with
  | [], _ => Some s
  | p :: pat', c :: s' => if N.eqb p c then strip_prefix pat' s' else None
  | _ :: _, [] => None
  end.

(** The leftmost occurrence of [pat] in [s], as the text before it and the
    text after it ([s.partition(pat)] when [pat in s]). *)
Fixpoint find_sub (pat s : str) : option (str * str) :=
  match strip_prefix pat s with
  | Some rest => Some ([], rest)
  | None =>
      match s with
      | [] => None
      | c :: s' =>
          match find_sub pat s' with
          | Some (before, after) => Some (c :: before, after)
          | None => None
          end
      end
  end.

(** [pat in s]. *)
Definition contains (pat s : str) : bool :=
  match find_sub pat s with Some _ => true | None => false end.

(** [str(n)] for a non-negative [int]. *)
Definition str_of_nat (n : nat) : str :=
  lit (NilZero.string_of_uint (Nat.to_uint n)).

(** Python list slices [l[:stop]] and [l[start:]]. *)
Definition norm_index {A : Type} (l : list A) (i : Z) : nat :=
  if i <? 0 then Z.to_nat (Z.max 0 (len l + i)) else Z.to_nat i.

Definition slice_to {A : Type} (l : list A) (stop : Z) : list A :=
  firstn (norm_index l stop) l.

Definition slice_from {A : Type} (l : list A) (start : Z) : list A :=
  skipn (norm_index l start) l.

(** ** class Message *)

Record Message := mkMessage { role : str; content : str }.

(** The dictionary [{"role": ..., "content": ...}]. *)
Record Entry := mkEntry { e_role : str; e_content : str }.

Definition to_dict (self : Message) : Entry :=
  mkEntry (role self) (content self).

Definition ELLIPSIS : str := lit "...".
Definition SPACE : str := lit " ".

Section Truncate.

(** [random.sample(population, k)]: the choice made by the generator, or
    [None] when it raises [ValueError] (negative [k], or [k] larger than
    the population). *)
Variable random_sample : list str -> Z -> option (list str).

(** [Message.truncate]; [None] is the exception of [random.sample]
    propagating. *)
Definition truncate (self : Message) (max_tokens : Z) (mode : str)
  : option Message :=
  let tokens := split (content self) in
  if len tokens >? max_tokens then
    let selected :=
      if str_eqb mode (lit "start") then
        Some (join SPACE (slice_to tokens max_tokens))
      else if str_eqb mode (lit "end") then
        Some (join SPACE (slice_from tokens (- max_tokens)))
      else if str_eqb mode (lit "mix") then
        Some (join SPACE (slice_to tokens (max_tokens / 2)
                          ++ slice_from tokens ((- max_tokens) / 2)))
      else if str_eqb mode (lit "random") then
        option_map (join SPACE) (random_sample tokens max_tokens)
      else Some (content self)
    in
    match selected with
    | Some c => Some (mkMessage (role self) (c ++ ELLIPSIS))
    | None => None
    end
  else Some self.

End Truncate.

(** ** class Memory *)

(** [context_length] is the budget the constructor stores, that is its
    argument already scaled by 0.9 and truncated. *)
Record Memory := mkMemory { context_length : Z; history : list Entry }.

(** [len(msg["content"].split())]. *)
Definition msg_length (message : Entry) : Z := len (split (e_content message)).

(** [sum(len(msg["content"].split()) for msg in history)]. *)
Definition total_length (h : list Entry) : Z :=
  fold_right (fun message acc => msg_length message + acc) 0 h.

Definition is_system (message : Entry) : bool :=
  str_eqb (e_role message) (lit "system").

(** The [for message in reversed(self.history)] loop of [_update_context]:
    [new_history.insert(0, message)] is a cons, [break] returns what has
    been collected. *)
Fixpoint retention_loop (reversed_history : list Entry)
    (new_history : list Entry) (remaining_length : Z) : list Entry :=
  match reversed_history with
  | [] => new_history
  | message :: older =>
      if is_system message || (remaining_length - msg_length message >=? 0)
      then retention_loop older (message :: new_history)
             (remaining_length - msg_length message)
      else new_history
  end.

Definition _update_context (self : Memory) : Memory :=
  if total_length (history self) <=? context_length self then self
  else mkMemory (context_length self)
         (retention_loop (rev (history self)) [] (context_length self)).

(** [pretty_print_history] only prints; it leaves the memory as it is. *)
Definition add_message (self : Memory) (message : Message) : Memory :=
  _update_context
    (mkMemory (context_length self) (history self ++ [to_dict message])).

Definition clear (self : Memory) : Memory :=
  mkMemory (context_length self) [].

(** ** Tagged spans

    The two patterns of the source are [OPEN(.*?)CLOSE] compiled with
    [re.DOTALL]: a literal opening tag, the shortest text of any characters,
    a literal closing tag. *)

Definition NL : str := [10%N].

Definition STEP_OPEN : str := lit "<step>".
Definition STEP_CLOSE : str := lit "</step>".
Definition PYTHON_OPEN : str := lit "<python>".
Definition PYTHON_CLOSE : str := lit "</python>".

(** [pattern.search(s)]: group 1 of the leftmost match and the text after
    the match.  The leftmost opening tag that is followed by a closing tag is
    the leftmost opening tag of all, and the lazy group ends at the first
    closing tag behind it. *)
Definition search_span (open close s : str) : option (str * str) :=
  match find_sub open s with
  | None => None
  | Some (_, rest) => find_sub close rest
  end.

(** [pattern.findall(s)]: group 1 of the successive non-overlapping matches.
    Each match consumes its two tags, so [fuel] bounds the matches left. *)
Fixpoint findall_spans (fuel : nat) (open close s : str) : list str :=
  match fuel with
  | O => []
  | S fuel' =>
      match search_span open close s with
      | None => []
      | Some (body, after) => body :: findall_spans fuel' open close after
      end
  end.

Definition findall (open close s : str) : list str :=
  findall_spans (List.length s) open close s.

(** [extract_python_code]: [None] is Python's [None]. *)
Definition extract_python_code (response_content : str) : option str :=
  match search_span PYTHON_OPEN PYTHON_CLOSE response_content with
  | Some (body, _) => Some (strip body)
  | None => None
  end.

Definition extract_steps (response_content : str) : option (list str) :=
  match search_span STEP_OPEN STEP_CLOSE response_content with
  | Some _ => Some (findall STEP_OPEN STEP_CLOSE response_content)
  | None => None
  end.

(** ** Prompts *)

Definition SYSTEM_PROMPT : str := lit "
You are a large reasoning model. You are given a question and you need
to reason step by step to find the answer. Do not provide the answer unless
you have reasoned through the question.
You can use Python code and write it in <python> and </python> tags.
The Python code could help you solve some of the steps.
Write it in a way that it can be parsed and executed using the exec() function.
Only use Python standard libraries.
Add explicit print statements so the output could be explained easily.
Only use Python code if it is absolutely necessary.
Be mutually exclusive and collectively exhaustive in your reasoning.
".

Definition STEPS_PROMPT : str := lit "
First, I need to think about the question and the thinking steps I need to take.
Put those steps into an opening <thinking> and closing </thinking> tag.
Each step should be in a <step> tag.
Example: steps to check if a number is prime:
<thinking>
    <step>Check if the number is greater than 1.</step>
    <step>Check if the number is divisible by any number other than 1 and itself.</step>
</thinking>
Do not provide an answer yet.
".

Definition ANSWER_PROMPT : str := lit "
Now I will use the thinking steps to reason and craft the complete final answer.
The answer should contain all the logical steps I took to arrive
at the answer.
Put the answer in an opening <answer> and closing </answer> tag.
Example: <answer>The number is prime because it is greater than 1 and
not divisible by any number other than 1 and itself.</answer>
".

(** ** The collaborators of the driver *)

(** [completion[0]] of the language-model client: a [str], or another kind
    of object (a dictionary when log-probabilities are requested). *)
Inductive completion :=
| Text (s : str)
| Other.

(** What [exec(code, exec_globals, local_vars)] under
    [contextlib.redirect_stdout(buf)] does. *)
Inductive exec_outcome :=
| Completed (output : str)           (* returned; [buf.getvalue()] *)
| RaisedImportError (message : str)  (* [ImportError]; [str(imp_err)] *)
| RaisedException (trace : str)      (* another [Exception]; [traceback.format_exc()] *)
| RaisedBaseException (name : str).  (* [SystemExit] and the like: not caught *)

Inductive pyvalue :=
| VModule (name : str).

(** The dictionary passed to [exec] as its globals. *)
Definition exec_globals : list (str * pyvalue) :=
  [ (lit "__builtins__", VModule (lit "builtins"));
    (lit "math", VModule (lit "math"));
    (lit "random", VModule (lit "random")) ].

Inductive exn :=
| ValueError (message : str)
| TypeError (message : str)
| AttributeError (message : str)
| Propagated (name : str).

Definition PARSE_FAILURE : exn :=
  ValueError (lit "Failed to parse steps from the assistant's response.").

Definition NOT_ITERABLE : exn :=
  TypeError (lit "'NoneType' object is not iterable").

Definition NO_SPLIT : exn :=
  AttributeError (lit "object has no attribute 'split'").

(** The three strings [execute_python_code] can return. *)
Definition success_text (code output : str) : str :=
  lit "The following Python code was executed successfully:" ++ NL
  ++ code ++ NL ++ lit "Output:" ++ NL ++ output.

Definition import_error_text (message : str) : str :=
  lit "ImportError occurred: " ++ message.

Definition exception_text (trace : str) : str :=
  lit "An error occurred while executing the code:" ++ NL ++ trace.

(** [if "error" in python_output.lower()]. *)
Definition reports_error (python_output : str) : bool :=
  contains (lit "error") (lower python_output).

Definition ASSISTANT : str := lit "assistant".

Definition step_message (i : nat) (step : str) : str :=
  lit "Let's do step " ++ str_of_nat i ++ lit ": " ++ step.

Definition error_message (i : nat) (python_output : str) : str :=
  lit "An error occurred while executing step " ++ str_of_nat i
  ++ lit ": " ++ python_output.

Definition retry_message (i retries max_retries : nat) : str :=
  lit "Retrying step " ++ str_of_nat i
  ++ lit " to ensure no further errors (Attempt " ++ str_of_nat (retries + 1)
  ++ lit " of " ++ str_of_nat max_retries ++ lit ")".

Definition final_error_message (i max_retries : nat) : str :=
  lit "Step " ++ str_of_nat i ++ lit " encountered errors after "
  ++ str_of_nat max_retries ++ lit " retries. Moving on to the next step.".

(** ** class LargeReasoningModel *)

Section Driver.

(** Whatever the language-model service and the Python interpreter depend
    on and change; each call threads it. *)
Variable World : Type.

(** [self.client(messages=..., temperature=..., logprobs=...)[0]]; the
    sampling temperature and the log-probability flag are the same at
    every call and belong to the client. *)
Variable client : World -> list Entry -> World * completion.

(** [exec(code, exec_globals, local_vars)] with standard output captured. *)
Variable py_exec : World -> list (str * pyvalue) -> str -> World * exec_outcome.

(** The driver's state; [lm_calls] and [exec_calls] count the calls made
    to the two collaborators. *)
Record State := mkState {
  memory : Memory;
  world : World;
  lm_calls : nat;
  exec_calls : nat
}.

(** A method body: it changes the state and returns or raises. *)
Definition M (A : Type) : Type := State -> (exn + A) * State.

Definition ret {A : Type} (a : A) : M A := fun st => (inr a, st).

Definition raise {A : Type} (e : exn) : M A := fun st => (inl e, st).

Definition bind {A B : Type} (m : M A) (k : A -> M B) : M B :=
  fun st =>
    match m st with
    | (inr a, st') => k a st'
    | (inl e, st') => (inl e, st')
    end.

Notation "x <- m ;; k" := (bind m (fun x => k))
  (at level 61, m at next level, right associativity).
Notation "m ;;; k" := (bind m (fun _ => k))
  (at level 61, right associativity).

(** [self.memory.add_message(Message(role=role, content=content))]. *)
Definition remember (role content : str) : M unit :=
  fun st =>
    (inr tt,
     mkState (add_message (memory st) (mkMessage role content))
             (world st) (lm_calls st) (exec_calls st)).

(** The same with the content a completion, which the client returns as a
    [str] or, with log-probabilities, as a dictionary: [_update_context]
    calls [split] on it, which a dictionary does not have.  The exception
    leaves [reasoning] at once.  The state paired with it holds the memory
    as it was before the call: the entry that the source has appended by
    then has a content that is not a string, and [Entry] has no value for
    it. *)
Definition remember_completion (role : str) (response : completion)
  : M unit :=
  match response with
  | Text s => remember role s
  | Other => raise NO_SPLIT
  end.

Definition generate_response : M completion :=
  fun st =>
    let (w, response) := client (world st) (history (memory st)) in
    (inr response,
     mkState (memory st) w (S (lm_calls st)) (exec_calls st)).

(** [extract_steps(response)] inside the [try]: [pattern.search] raises
    [TypeError] on an object that is not a [str]. *)
Definition try_extract_steps (response : completion)
  : exn + option (list str) :=
  match response with
  | Text s => inr (extract_steps s)
  | Other => inl (TypeError (lit "expected string or bytes-like object"))
  end.

Definition execute_python_code (code : str) : M str :=
  fun st =>
    let (w, outcome) := py_exec (world st) exec_globals code in
    let st' := mkState (memory st) w (lm_calls st) (S (exec_calls st)) in
    match outcome with
    | Completed output => (inr (success_text code output), st')
    | RaisedImportError message => (inr (import_error_text message), st')
    | RaisedException trace => (inr (exception_text trace), st')
    | RaisedBaseException name => (inl (Propagated name), st')
    end.

(** The [for _ in range(max_retries)] loop with its [else] clause:
    [remaining] iterations are left. *)
Fixpoint request_steps (remaining : nat)
  : M (completion * option (list str)) :=
  match remaining with
  | O => raise PARSE_FAILURE
  | S remaining' =>
      response <- generate_response ;;
      match try_extract_steps response with
      | inr steps => ret (response, steps)    (* break *)
      | inl _ => request_steps remaining'     (* except Exception: continue *)
      end
  end.

(** The [while retries < max_retries and not success] loop, by recursion
    on [max_retries - retries]; it returns [success]. *)
Fixpoint execution_loop (left : nat) (max_retries i : nat)
    (python_code : str) (retries : nat) : M bool :=
  match left with
  | O => ret false
  | S left' =>
      python_output <- execute_python_code python_code ;;
      if reports_error python_output then
        remember ASSISTANT (error_message i python_output) ;;;
        remember ASSISTANT (retry_message i retries max_retries) ;;;
        execution_loop left' max_retries i python_code (S retries)
      else
        remember ASSISTANT python_output ;;;
        ret true
  end.

(** The [if python_code:] block of one step. *)
Definition run_snippet (max_retries i : nat) (python_code : str) : M unit :=
  success <- execution_loop (max_retries - 0) max_retries i python_code 0 ;;
  if success then ret tt
  else remember ASSISTANT (final_error_message i max_retries).

(** The body of the [for i, step in enumerate(steps, 1)] loop. *)
Definition do_step (max_retries i : nat) (step : str) : M unit :=
  remember ASSISTANT (step_message i step) ;;;
  response <- generate_response ;;
  remember_completion ASSISTANT response ;;;
  match response with
  | Text s =>
      match extract_python_code s with
      | Some (c :: code) => run_snippet max_retries i (c :: code)
      | _ => ret tt
      end
  | Other => ret tt
  end.

Fixpoint do_steps (max_retries i : nat) (steps : list str) : M unit :=
  match steps with
  | [] => ret tt
  | step :: rest =>
      do_step max_retries i step ;;;
      do_steps max_retries (S i) rest
  end.

Definition reasoning (instruction : str) (max_retries : Z) : M completion :=
  remember (lit "user") instruction ;;;
  remember ASSISTANT STEPS_PROMPT ;;;
  parsed <- request_steps (Z.to_nat max_retries) ;;
  let (response, steps) := parsed in
  remember_completion ASSISTANT response ;;;
  match steps with
  | None => raise NOT_ITERABLE
  | Some steps => do_steps 3 1 steps
  end ;;;
  remember ASSISTANT ANSWER_PROMPT ;;;
  final_response <- generate_response ;;
  remember_completion ASSISTANT final_response ;;;
  ret final_response.

(** [LargeReasoningModel.__init__] on a memory of the given budget. *)
Definition init (budget : Z) (w : World) : State :=
  mkState (add_message (mkMemory budget []) (mkMessage (lit "system") SYSTEM_PROMPT))
          w 0 0.

End Driver.

Arguments mkState {World} _ _ _ _.
Arguments memory {World} _.
Arguments world {World} _.
Arguments lm_calls {World} _.
Arguments exec_calls {World} _.
Arguments ret {World A} _ _.
Arguments raise {World A} _ _.
Arguments bind {World A B} _ _ _.
Arguments remember {World} _ _ _.
Arguments remember_completion {World} _ _ _.
Arguments generate_response {World} _ _.
Arguments execute_python_code {World} _ _ _.
Arguments request_steps {World} _ _ _.
Arguments execution_loop {World} _ _ _ _ _ _ _.
Arguments run_snippet {World} _ _ _ _ _.
Arguments do_step {World} _ _ _ _ _ _.
Arguments do_steps {World} _ _ _ _ _ _.
Arguments reasoning {World} _ _ _ _ _.
Arguments init {World} _ _.

(** ** A scripted host

    A concrete pair of collaborators on which the driver can be run, as a
    test stubs them: the language model answers from a fixed script, and
    the interpreter answers from a table that gives, for the snippets of
    the examples, what [exec] does with them.  Neither is a model of the
    service or of Python; the properties of the driver are stated for
    every client and every interpreter. *)

(** [code.split("\n")]. *)
Fixpoint lines_from (cur : str) (code : str) : list str :=
  match code with
  | [] => [cur]
  | c :: code' =>
      if (c =? 10)%N then cur :: lines_from [] code'
      else lines_from (cur ++ [c]) code'
  end.

(** A snippet that runs without fault and prints the word [error]. *)
Definition harmless_snippet : str := lit "print('no error here')".

(** A snippet that imports a module outside the allow-list. *)
Definition os_snippet : str := lit "import os
print('done')".

(** A snippet that imports a module the host does not have. *)
Definition numpy_snippet : str := lit "print('start')
import numpy".

(** A snippet that leaves the interpreter. *)
Definition exit_snippet : str := lit "raise SystemExit".

(** [str(e)] for the [ModuleNotFoundError] of a missing module. *)
Definition no_module_text (module : str) : str :=
  lit "No module named '" ++ module ++ lit "'".

(** The host: the replies the model still has to give, and what its
    interpreter does with the snippets it is given. *)
Record Host := mkHost {
  replies : list completion;
  runs : list (str * exec_outcome)
}.

Definition host_client (h : Host) (messages : list Entry)
  : Host * completion :=
  match replies h with
  | [] => (h, Text [])
  | r :: rest => (mkHost rest (runs h), r)
  end.

Fixpoint scripted_run (code : str) (table : list (str * exec_outcome))
  : option exec_outcome :=
  match table with
  | [] => None
  | (snippet, outcome) :: table' =>
      if str_eqb snippet code then Some outcome else scripted_run code table'
  end.

Definition host_exec (h : Host) (globals : list (str * pyvalue)) (code : str)
  : Host * exec_outcome :=
  (h,
   match scripted_run code (runs h) with
   | Some outcome => outcome
   | None => RaisedException (lit "LookupError: no run is scripted for this code")
   end).

(** What [exec] does with the snippets of the examples, under the globals
    of [execute_python_code], where the standard library is installed and
    numpy is not. *)
Definition STANDARD_RUNS : list (str * exec_outcome) :=
  [ (harmless_snippet, Completed (lit "no error here" ++ NL));
    (os_snippet, Completed (lit "done" ++ NL));
    (lit "import math", Completed []);
    (numpy_snippet, RaisedImportError (no_module_text (lit "numpy")));
    (exit_snippet, RaisedBaseException (lit "SystemExit")) ].


(** ** The statements of the specification that the code does not meet,
    as they are written *)

(** The memory invariant as stated: within the budget, or system messages
    only. *)
Definition within_budget_or_system_only (self : Memory) : Prop :=
  total_length (history self) <= context_length self
  \/ Forall (fun message => is_system message = true) (history self).

(** The memory invariant the retention pass establishes: a run of system
    messages, then a window that is empty or within the budget. *)
Definition system_run_then_window (self : Memory) : Prop :=
  exists run window,
    history self = run ++ window
    /\ Forall (fun message => is_system message = true) run
    /\ (window = [] \/ total_length window <= context_length self).

(** [add_message] called with each message of a sequence in turn. *)
Definition add_messages (self : Memory) (messages : list Message) : Memory :=
  fold_left add_message messages self.

(** ** Sample data *)

Definition entry (r c : string) : Entry := mkEntry (lit r) (lit c).

Definition message (r c : string) : Message := mkMessage (lit r) (lit c).

(** A full memory of budget 3: the scan keeps the last two messages and
    stops at the second, which drops the old system message with it. *)
Definition crowded_memory : Memory :=
  mkMemory 3
    [ entry "system" "x y"; entry "user" "a b c";
      entry "system" "s"; entry "user" "d e" ].

(** A memory of budget 2 holding one short user message. *)
Definition small_memory : Memory := mkMemory 2 [ entry "user" "a" ].

(** One of the choices [random.sample] can make: the first [k] tokens. *)
Definition first_sample (population : list str) (k : Z) : option (list str) :=
  if (k <? 0) || (len population <? k) then None
  else Some (firstn (Z.to_nat k) population).

(** The first [n] and the last [n] elements of a list. *)
Definition first_tokens (n : nat) (tokens : list str) : list str :=
  firstn n tokens.

Definition last_tokens (n : nat) (tokens : list str) : list str :=
  skipn (List.length tokens - n) tokens.

(** The tokens of a joined selection once the ellipsis has been appended:
    the suffix is glued to the last token. *)
Definition mark_last (tokens : list str) : list str :=
  removelast tokens ++ [last tokens [] ++ ELLIPSIS].

(** The truncation property as stated, for the modes [start] and [end]. *)
Definition truncate_as_stated (random_sample : list str -> Z -> option (list str))
    (self : Message) (max_tokens : Z) (from_start : bool) : Prop :=
  let tokens := split (content self) in
  exists truncated,
    truncate random_sample self max_tokens
      (if from_start then lit "start" else lit "end") = Some truncated
    /\ len (split (content truncated)) = Z.min (len tokens) max_tokens
    /\ split (content truncated)
       = if from_start then first_tokens (Z.to_nat max_tokens) tokens
         else last_tokens (Z.to_nat max_tokens) tokens.

(** [pat] occurs nowhere in [s]. *)
Definition absent (pat s : str) : Prop :=
  forall before after, s <> before ++ pat ++ after.

(** A response with exactly two step spans, [first] and [second]: no
    opening tag before either span, no closing tag inside them, and no
    further span behind them. *)
Definition two_step_spans (response first second : str) : Prop :=
  exists before between after,
    response = before ++ STEP_OPEN ++ first ++ STEP_CLOSE
               ++ between ++ STEP_OPEN ++ second ++ STEP_CLOSE ++ after
    /\ absent STEP_OPEN before
    /\ absent STEP_CLOSE first
    /\ absent STEP_OPEN between
    /\ absent STEP_CLOSE second
    /\ (forall a b c, after <> a ++ STEP_OPEN ++ b ++ STEP_CLOSE ++ c).

(** A response whose first step is written with spaces around it. *)
Definition padded_response : str := lit "<step> a </step><step>b</step>".

(** A response in the layout the steps prompt asks for. *)
Definition plan_response : str := lit "<thinking>
    <step>Take the square root.</step>
    <step>Check it is an integer.</step>
</thinking>".

(** A token: not empty, and without a whitespace character. *)
Definition no_space (t : str) : Prop := Forall (fun c => is_space c = false) t.

Definition is_token (t : str) : Prop := t <> [] /\ no_space t.

(** The string [execute_python_code] returns for an outcome of [exec];
    [None] when the exception is not caught. *)
Definition returned_text (code : str) (outcome : exec_outcome) : option str :=
  match outcome with
  | Completed output => Some (success_text code output)
  | RaisedImportError message => Some (import_error_text message)
  | RaisedException trace => Some (exception_text trace)
  | RaisedBaseException _ => None
  end.

(** The messages one failed attempt records. *)
Definition failure_messages (i retries max_retries : nat) (python_output : str)
  : list Message :=
  [ mkMessage ASSISTANT (error_message i python_output);
    mkMessage ASSISTANT (retry_message i retries max_retries) ].

(** A model that never writes a step. *)
Definition stepless_host : Host :=
  mkHost [ Text (lit "I cannot think of any step.") ] STANDARD_RUNS.

(** A model that plans two steps, answers them without code, and concludes. *)
Definition square_host : Host :=
  mkHost
    [ Text plan_response;
      Text (lit "The square root of 4 is 2.");
      Text (lit "2 is an integer.");
      Text (lit "<answer>Yes, 4 is a perfect square.</answer>") ]
    STANDARD_RUNS.

(** A model whose only step comes with the harmless snippet. *)
Definition harmless_host : Host :=
  mkHost
    [ Text (lit "<step>Say it.</step>");
      Text (lit "<python>" ++ harmless_snippet ++ lit "</python>");
      Text (lit "<answer>Said.</answer>") ]
    STANDARD_RUNS.

(** A model whose first step comes with a snippet that cannot run, and
    which has a second step. *)
Definition failing_host : Host :=
  mkHost
    [ Text (lit "<step>Compute.</step><step>Conclude.</step>");
      Text (lit "<python>" ++ numpy_snippet ++ lit "</python>");
      Text (lit "It cannot be computed.");
      Text (lit "<answer>Unknown.</answer>") ]
    STANDARD_RUNS.

Definition QUESTION : str := lit "is 4 a perfect square?".

(** A client that returns an object that is not a string, five times. *)
Definition mute_host : Host :=
  mkHost [ Other; Other; Other; Other; Other ] STANDARD_RUNS.

(** What a run leaves to look at: the exception raised if any, the roles
    and contents in memory, and the numbers of calls made. *)
Definition raised {A : Type} (r : (exn + A) * @State Host) : option exn :=
  match fst r with inl e => Some e | inr _ => None end.

Definition contents (st : @State Host) : list str :=
  map e_content (history (memory st)).

(** The driver about to run a snippet on the standard host. *)
Definition snippet_state : @State Host :=
  mkState (mkMemory 115200 []) square_host 0 0.

(** The driver about to start the first step of [failing_host]. *)
Definition failing_step_state : @State Host :=
  mkState (mkMemory 115200 [])
    (mkHost (tl (replies failing_host)) STANDARD_RUNS) 0 0.

(** The snippet has a line [import module]. *)
Definition imports (code module : str) : Prop :=
  In (lit "import " ++ module) (lines_from [] code).


(** The containment of execution failures as stated: whenever the response
    to a step holds a snippet, the step ends without an exception after at
    most three executions, and the driver goes on with the next step. *)
Definition snippet_failures_contained {World : Type}
    (client : World -> list Entry -> World * completion)
    (py_exec : World -> list (str * pyvalue) -> str -> World * exec_outcome)
    (st : State World) (i : nat) (step : str) : Prop :=
  forall (w : World) (s code : str),
    client (world st)
      (history
         (add_message (memory st) (mkMessage ASSISTANT (step_message i step))))
    = (w, Text s) ->
    extract_python_code s = Some code ->
    code <> [] ->
    exists st',
      do_step client py_exec 3 i step st = (inr tt, st')
      /\ (exec_calls st' <= exec_calls st + 3)%nat.

(** The driver about to start a step whose response holds the snippet that
    leaves the interpreter. *)
Definition exiting_step_state : @State Host :=
  mkState (mkMemory 115200 [])
    (mkHost
       [ Text (lit "<python>" ++ exit_snippet ++ lit "</python>");
         Text (lit "It cannot be computed.") ]
       STANDARD_RUNS) 0 0.

(** A response written as a sequence of step spans, each after a gap,
    and a tail. *)
Fixpoint spans_text (spans : list (str * str)) (tail : str) : str :=
  match spans with
  | [] => tail
  | (gap, body) :: rest =>
      gap ++ STEP_OPEN ++ body ++ STEP_CLOSE ++ spans_text rest tail
  end.

(** No span [open ... close] in [s]. *)
Definition no_span (open close s : str) : Prop :=
  forall a b c, s <> a ++ open ++ b ++ close ++ c.

(** A client whose completions are never strings, and one that always
    answers the same plain sentence; an interpreter that is never needed. *)
Definition other_client (w : unit) (messages : list Entry)
  : unit * completion := (w, Other).

Definition plain_client (w : unit) (messages : list Entry)
  : unit * completion := (w, Text (lit "Nothing to run.")).

Definition idle_exec (w : unit) (globals : list (str * pyvalue)) (code : str)
  : unit * exec_outcome := (w, Completed []).

(** An interpreter that the snippet leaves through [SystemExit]. *)
Definition exit_exec (h : Host) (globals : list (str * pyvalue)) (code : str)
  : Host * exec_outcome := (h, RaisedBaseException (lit "SystemExit")).

Definition blank_state : @State unit := mkState (mkMemory 115200 []) tt 0 0.

(** * Properties *)

(** ** Memory *)

Lemma len_nonneg {A : Type} (l : list A) : 0 <= len l.
Proof. unfold len. lia. Qed.

Lemma msg_length_nonneg (message : Entry) : 0 <= msg_length message.
Proof. apply len_nonneg. Qed.

Lemma total_length_nonneg (h : list Entry) : 0 <= total_length h.
Proof.
  induction h as [|m h IH]; simpl; [lia|].
  pose proof (msg_length_nonneg m). lia.
Qed.

Lemma total_length_app (a b : list Entry) :
  total_length (a ++ b) = total_length a + total_length b.
Proof.
  induction a as [|m a IH]; simpl; [reflexivity|]. rewrite IH. lia.
Qed.

Lemma total_length_rev (h : list Entry) :
  total_length (rev h) = total_length h.
Proof.
  induction h as [|m h IH]; simpl; [reflexivity|].
  rewrite total_length_app, IH. simpl. lia.
Qed.

(** What the scan keeps and where it stops, for any starting accumulator. *)
Lemma retention_loop_scan (reversed_history : list Entry) :
  forall new_history remaining,
  exists kept dropped,
    reversed_history = kept ++ dropped
    /\ retention_loop reversed_history new_history remaining
       = rev kept ++ new_history
    /\ (forall newer x older, kept = newer ++ x :: older ->
          is_system x = true
          \/ remaining - total_length newer - msg_length x >= 0)
    /\ (dropped = []
        \/ exists x older, dropped = x :: older
             /\ is_system x = false
             /\ remaining - total_length kept - msg_length x < 0).
Proof.
  induction reversed_history as [|m rest IH]; intros acc rem.
  - exists [], []. repeat split; auto.
    intros [|? ?] ? ? H; discriminate H.
  - simpl.
    destruct (is_system m || (rem - msg_length m >=? 0)) eqn:Hkeep.
    + destruct (IH (m :: acc) (rem - msg_length m))
        as (kept & dropped & Hsplit & Hres & Hkept & Hdrop).
      exists (m :: kept), dropped. repeat split.
      * simpl. now rewrite Hsplit.
      * rewrite Hres. simpl. now rewrite <- app_assoc.
      * intros [|n newer] x older Heq; simpl in Heq; inversion Heq; subst.
        -- apply orb_true_iff in Hkeep. destruct Hkeep as [Hs|Hb]; [now left|].
           right. simpl. apply Z.geb_le in Hb. lia.
        -- destruct (Hkept newer x older eq_refl) as [Hs|Hb]; [now left|].
           right. simpl. lia.
      * destruct Hdrop as [->|(x & older & -> & Hs & Hb)]; [now left|].
        right. exists x, older. repeat split; auto. simpl. lia.
    + apply orb_false_iff in Hkeep. destruct Hkeep as [Hs Hb].
      exists [], (m :: rest). repeat split; auto.
      * intros [|? ?] ? ? H; discriminate H.
      * right. exists m, rest. repeat split; auto. simpl.
        rewrite Z.geb_leb in Hb. apply Z.leb_gt in Hb. lia.
Qed.

(** C1.  When the total token count of the history exceeds the budget, the
    retention pass keeps a most-recent part of the history, in its original
    oldest-first order: every kept message is a system message or fitted the
    budget left after all the kept messages more recent than it (system ones
    included) had been subtracted; the most recent discarded message is not
    a system message and did not fit; and everything older than it is
    discarded with it. *)
Theorem update_context_scan (self : Memory) :
  total_length (history self) > context_length self ->
  exists dropped kept,
    history self = dropped ++ kept
    /\ history (_update_context self) = kept
    /\ (forall older x newer, kept = older ++ x :: newer ->
          is_system x = true
          \/ context_length self - total_length newer - msg_length x >= 0)
    /\ (dropped = []
        \/ exists older x, dropped = older ++ [x]
             /\ is_system x = false
             /\ context_length self - total_length kept - msg_length x < 0).
Proof.
  intros Hover. unfold _update_context.
  destruct (total_length (history self) <=? context_length self) eqn:Hle.
  { apply Z.leb_le in Hle. lia. }
  destruct (retention_loop_scan (rev (history self)) [] (context_length self))
    as (kept & dropped & Hsplit & Hres & Hkept & Hdrop).
  exists (rev dropped), (rev kept). repeat split.
  - rewrite <- rev_app_distr, <- Hsplit. now rewrite rev_involutive.
  - simpl. rewrite Hres. apply app_nil_r.
  - intros older x newer Heq.
    assert (Hk : kept = rev newer ++ x :: rev older).
    { rewrite <- (rev_involutive kept), Heq, rev_app_distr. simpl.
      now rewrite <- app_assoc. }
    destruct (Hkept _ _ _ Hk) as [Hs|Hb]; [now left|].
    right. rewrite total_length_rev in Hb. exact Hb.
  - destruct Hdrop as [->|(x & older & -> & Hs & Hb)]; [now left|].
    right. exists (rev older), x. repeat split; auto.
    now rewrite total_length_rev.
Qed.

Example update_context_crowded :
  history (_update_context crowded_memory)
  = [ entry "system" "s"; entry "user" "d e" ].
Proof. reflexivity. Qed.

Lemma update_context_scan_witness :
  total_length (history crowded_memory) > context_length crowded_memory
  /\ exists dropped kept,
       history crowded_memory = dropped ++ kept
       /\ history (_update_context crowded_memory) = kept
       /\ (forall older x newer, kept = older ++ x :: newer ->
             is_system x = true
             \/ context_length crowded_memory - total_length newer
                - msg_length x >= 0)
       /\ (dropped = []
           \/ exists older x, dropped = older ++ [x]
                /\ is_system x = false
                /\ context_length crowded_memory - total_length kept
                   - msg_length x < 0).
Proof.
  split; [reflexivity|].
  apply (update_context_scan crowded_memory). reflexivity.
Defined.

Lemma update_context_budget (self : Memory) :
  context_length (_update_context self) = context_length self.
Proof.
  unfold _update_context.
  now destruct (total_length (history self) <=? context_length self).
Qed.

Lemma add_message_budget (self : Memory) (m : Message) :
  context_length (add_message self m) = context_length self.
Proof. unfold add_message. now rewrite update_context_budget. Qed.

(** Kept messages that each passed the test of the scan form a run of
    system messages followed by a window within the budget. *)
Lemma kept_run_window (budget : Z) (kept : list Entry) :
  (forall older x newer, kept = older ++ x :: newer ->
     is_system x = true \/ budget - total_length newer - msg_length x >= 0) ->
  exists run window,
    kept = run ++ window
    /\ Forall (fun message => is_system message = true) run
    /\ (window = [] \/ total_length window <= budget).
Proof.
  induction kept as [|x rest IH]; intros Hkept.
  - exists [], []. repeat split; auto.
  - destruct (Hkept [] x rest eq_refl) as [Hs|Hb].
    + destruct IH as (run & window & Heq & Hrun & Hwin).
      { intros older y newer ->. apply (Hkept (x :: older) y newer eq_refl). }
      exists (x :: run), window. repeat split; auto.
      simpl. now rewrite Heq.
    + exists [], (x :: rest). repeat split; auto.
      right. simpl. lia.
Qed.

Lemma update_context_run_window (self : Memory) :
  system_run_then_window (_update_context self).
Proof.
  unfold system_run_then_window. rewrite update_context_budget.
  unfold _update_context.
  destruct (total_length (history self) <=? context_length self) eqn:Hle.
  - apply Z.leb_le in Hle. exists [], (history self). repeat split; auto.
  - destruct (retention_loop_scan (rev (history self)) [] (context_length self))
      as (kept & dropped & _ & Hres & Hkept & _).
    simpl. rewrite Hres, app_nil_r.
    apply kept_run_window. intros older x newer Heq.
    assert (Hk : kept = rev newer ++ x :: rev older).
    { rewrite <- (rev_involutive kept), Heq, rev_app_distr. simpl.
      now rewrite <- app_assoc. }
    destruct (Hkept _ _ _ Hk) as [Hs|Hb]; [now left|].
    right. now rewrite total_length_rev in Hb.
Qed.

(** C2, as stated, fails: a system message of three tokens and then a user
    message of one token, added to an empty memory of budget 2, are both
    kept; the total is 4 and the history is not made of system messages
    only. *)
Lemma invariant_as_stated_fails :
  ~ within_budget_or_system_only
      (add_messages (mkMemory 2 [])
         [ message "system" "a b c"; message "user" "d" ]).
Proof.
  intros [H|H].
  - apply H. reflexivity.
  - inversion H as [|? ? _ H2]. inversion H2 as [|? ? H3 _].
    discriminate H3.
Qed.

(** C2, amended.  After every [add_message] of every sequence of calls, the
    history is a run of system messages followed by a window that is empty
    or whose total token count is at most the budget: the budget is
    exceeded only by system messages older than every other message. *)
Theorem add_message_run_window (self : Memory) (earlier : list Message)
    (last : Message) :
  system_run_then_window (add_messages self (earlier ++ [last])).
Proof.
  unfold add_messages. rewrite fold_left_app. simpl.
  unfold add_message at 1. apply update_context_run_window.
Qed.

Lemma retention_loop_keeps_accumulator (reversed_history : list Entry)
    (new_history : list Entry) (remaining : Z) :
  new_history <> [] ->
  retention_loop reversed_history new_history remaining <> [].
Proof.
  intros Hne.
  destruct (retention_loop_scan reversed_history new_history remaining)
    as (kept & dropped & _ & Hres & _).
  rewrite Hres. intros Heq. apply app_eq_nil in Heq. tauto.
Qed.

(** C4, as stated, fails: a user message of three tokens added to a
    non-empty memory of budget 2 empties the history. *)
Lemma add_message_can_empty :
  history small_memory <> []
  /\ history (add_message small_memory (message "user" "b c d")) = [].
Proof. split; [discriminate | reflexivity]. Qed.

(** C4, amended.  [add_message] leaves the history empty exactly when the
    message added is not a system message and its own token count exceeds
    the budget; with a system message, or one that fits the budget, the
    history is not empty afterwards. *)
Theorem add_message_empty_iff (self : Memory) (m : Message) :
  history (add_message self m) = []
  <-> is_system (to_dict m) = false
      /\ msg_length (to_dict m) > context_length self.
Proof.
  unfold add_message, _update_context. simpl.
  rewrite total_length_app. simpl.
  pose proof (total_length_nonneg (history self)) as Hpos.
  destruct (total_length (history self) + (msg_length (to_dict m) + 0)
            <=? context_length self) eqn:Hle.
  - apply Z.leb_le in Hle. simpl. split.
    + intros Heq. apply app_eq_nil in Heq. destruct Heq as [_ Heq].
      discriminate Heq.
    + intros [_ Hgt]. lia.
  - simpl. rewrite rev_app_distr. simpl.
    destruct (is_system (to_dict m)
              || (context_length self - msg_length (to_dict m) >=? 0)) eqn:Hkeep.
    + split.
      * intros Heq. exfalso.
        revert Heq. apply retention_loop_keeps_accumulator. discriminate.
      * intros [Hs Hgt]. rewrite Hs in Hkeep. simpl in Hkeep.
        apply Z.geb_le in Hkeep. lia.
    + apply orb_false_iff in Hkeep. destruct Hkeep as [Hs Hb].
      split; [|reflexivity]. intros _. split; [exact Hs|].
      rewrite Z.geb_leb in Hb. apply Z.leb_gt in Hb. lia.
Qed.

(** ** Tokens *)

Lemma split_from_no_space (t : str) :
  no_space t -> forall cur s, split_from cur (t ++ s) = split_from (cur ++ t) s.
Proof.
  induction 1 as [|c t Hc Ht IH]; intros cur s; simpl.
  - now rewrite app_nil_r.
  - rewrite Hc, IH, <- app_assoc. reflexivity.
Qed.

Lemma split_from_tokens (s : str) :
  forall cur, no_space cur -> Forall is_token (split_from cur s).
Proof.
  induction s as [|c s IH]; intros cur Hcur; simpl.
  - destruct cur; constructor; [|constructor]. split; [discriminate|exact Hcur].
  - destruct (is_space c) eqn:Hc.
    + destruct cur.
      * apply IH. constructor.
      * constructor; [split; [discriminate|exact Hcur]|]. apply IH. constructor.
    + apply IH. apply Forall_app. split; [exact Hcur|]. now repeat constructor.
Qed.

Lemma split_tokens (s : str) : Forall is_token (split s).
Proof. apply split_from_tokens. constructor. Qed.

Lemma join_cons (sep t t2 : str) (rest : list str) :
  join sep (t :: t2 :: rest) = t ++ sep ++ join sep (t2 :: rest).
Proof. reflexivity. Qed.

Lemma split_from_space (cur s : str) :
  cur <> [] -> split_from cur (SPACE ++ s) = cur :: split_from [] s.
Proof. intros Hne. destruct cur; [congruence|reflexivity]. Qed.

(** Splitting a joined list of tokens followed by a suffix without
    whitespace: the suffix is part of the last token. *)
Lemma split_join_suffix (suffix : str) (tokens : list str) :
  no_space suffix -> Forall is_token tokens -> tokens <> [] ->
  split (join SPACE tokens ++ suffix)
  = removelast tokens ++ [last tokens [] ++ suffix].
Proof.
  intros Hsuf Htok. unfold split.
  induction Htok as [|t rest [Hne Ht] Hrest IH]; intros Hnil; [congruence|].
  destruct rest as [|t2 rest].
  - simpl. rewrite split_from_no_space by exact Ht. simpl.
    rewrite <- (app_nil_r suffix) at 1.
    rewrite split_from_no_space by exact Hsuf. simpl.
    destruct (t ++ suffix) eqn:Heq; [|reflexivity].
    apply app_eq_nil in Heq. tauto.
  - rewrite join_cons, <- !app_assoc.
    rewrite split_from_no_space by exact Ht.
    rewrite app_nil_l, split_from_space by exact Hne.
    rewrite IH by discriminate. reflexivity.
Qed.

Lemma mark_last_length (tokens : list str) :
  tokens <> [] -> List.length (mark_last tokens) = List.length tokens.
Proof.
  intros Hne. destruct (exists_last Hne) as (front & t & ->).
  unfold mark_last. rewrite removelast_last, !length_app. reflexivity.
Qed.

Lemma ellipsis_no_space : no_space ELLIPSIS.
Proof. repeat constructor. Qed.

Lemma Forall_firstn_skipn {A : Type} (P : A -> Prop) (n : nat) (l : list A) :
  Forall P l -> Forall P (firstn n l) /\ Forall P (skipn n l).
Proof.
  intros H. rewrite <- (firstn_skipn n l) in H. now apply Forall_app in H.
Qed.

(** ** Message.truncate *)

Lemma split_truncated (kept : list str) :
  Forall is_token kept -> kept <> [] ->
  split (join SPACE kept ++ ELLIPSIS) = mark_last kept.
Proof.
  intros Htok Hne. unfold mark_last.
  now apply split_join_suffix; [apply ellipsis_no_space| |].
Qed.

Lemma slice_to_first (tokens : list str) (max_tokens : Z) :
  0 <= max_tokens ->
  slice_to tokens max_tokens = first_tokens (Z.to_nat max_tokens) tokens.
Proof.
  intros H. unfold slice_to, norm_index, first_tokens.
  destruct (max_tokens <? 0) eqn:Hneg; [apply Z.ltb_lt in Hneg; lia|].
  reflexivity.
Qed.

Lemma slice_from_last (tokens : list str) (max_tokens : Z) :
  1 <= max_tokens ->
  slice_from tokens (- max_tokens) = last_tokens (Z.to_nat max_tokens) tokens.
Proof.
  intros H. unfold slice_from, norm_index, last_tokens, len.
  destruct (- max_tokens <? 0) eqn:Hneg; [|apply Z.ltb_ge in Hneg; lia].
  f_equal. lia.
Qed.

Lemma length_nonempty {A : Type} (l : list A) :
  (0 < List.length l)%nat -> l <> [].
Proof. destruct l; simpl; [lia|discriminate]. Qed.

(** C9.  When the content has at most [max_tokens] tokens, [truncate]
    leaves the message exactly as it is, in every mode and whatever the
    random generator would choose; truncating a second time then changes
    nothing either. *)
Theorem truncate_short_noop
    (random_sample : list str -> Z -> option (list str))
    (self : Message) (max_tokens : Z) (mode : str) :
  len (split (content self)) <= max_tokens ->
  truncate random_sample self max_tokens mode = Some self
  /\ match truncate random_sample self max_tokens mode with
     | Some once => truncate random_sample once max_tokens mode
     | None => None
     end = truncate random_sample self max_tokens mode.
Proof.
  intros Hle.
  assert (Hnoop : truncate random_sample self max_tokens mode = Some self).
  { unfold truncate.
    destruct (len (split (content self)) >? max_tokens) eqn:Hgt; [|reflexivity].
    rewrite Z.gtb_ltb in Hgt. apply Z.ltb_lt in Hgt. lia. }
  split; [exact Hnoop|]. rewrite Hnoop. exact Hnoop.
Qed.

Lemma truncate_short_noop_witness :
  len (split (content (message "user" "a b"))) <= 5
  /\ truncate first_sample (message "user" "a b") 5 (lit "mix")
     = Some (message "user" "a b").
Proof.
  split; [discriminate|].
  apply (truncate_short_noop first_sample (message "user" "a b") 5 (lit "mix")).
  discriminate.
Defined.

Example truncate_start_example :
  truncate first_sample (message "user" "a b c d") 2 (lit "start")
  = Some (message "user" "a b...").
Proof. reflexivity. Qed.

Example truncate_end_example :
  truncate first_sample (message "user" "a b c d") 2 (lit "end")
  = Some (message "user" "c d...").
Proof. reflexivity. Qed.

Example truncate_mix_example :
  truncate first_sample (message "user" "a b c d e f") 3 (lit "mix")
  = Some (message "user" "a e f...").
Proof. reflexivity. Qed.

Example truncate_end_zero_example :
  truncate first_sample (message "user" "a b") 0 (lit "end")
  = Some (message "user" "a b...").
Proof. reflexivity. Qed.

(** C6, as stated, fails at [max_tokens = 0]: truncating ["a b"] to no
    token in mode [start] leaves the ellipsis, which is one token. *)
Lemma truncate_to_zero_counts_one :
  ~ truncate_as_stated first_sample (message "user" "a b") 0 true.
Proof.
  intros (truncated & Hrun & Hcount & _).
  vm_compute in Hrun. injection Hrun as <-. discriminate Hcount.
Qed.

(** C6, amended.  For [max_tokens >= 1] and the modes [start] and [end],
    [truncate] returns a message whose token count is
    [min(original count, max_tokens)]; content within the budget is
    unchanged, and otherwise the tokens of the result are the first
    (mode [start]) or the last (mode [end]) [max_tokens] tokens of the
    original, the ellipsis being glued to the last of them. *)
Theorem truncate_start_end
    (random_sample : list str -> Z -> option (list str))
    (self : Message) (max_tokens : Z) (from_start : bool) :
  1 <= max_tokens ->
  let tokens := split (content self) in
  exists truncated,
    truncate random_sample self max_tokens
      (if from_start then lit "start" else lit "end") = Some truncated
    /\ len (split (content truncated)) = Z.min (len tokens) max_tokens
    /\ (len tokens <= max_tokens -> truncated = self)
    /\ (len tokens > max_tokens ->
        split (content truncated)
        = mark_last (if from_start
                     then first_tokens (Z.to_nat max_tokens) tokens
                     else last_tokens (Z.to_nat max_tokens) tokens)).
Proof.
  intros Hmax tokens. subst tokens.
  pose proof (split_tokens (content self)) as Htok.
  unfold truncate.
  remember (split (content self)) as tokens eqn:Etok.
  destruct (len tokens >? max_tokens) eqn:Hgt.
  - rewrite Z.gtb_ltb in Hgt. apply Z.ltb_lt in Hgt.
    pose (kept := if from_start
                  then first_tokens (Z.to_nat max_tokens) tokens
                  else last_tokens (Z.to_nat max_tokens) tokens).
    assert (Hlen : List.length kept = Z.to_nat max_tokens).
    { unfold kept, first_tokens, last_tokens, len in *.
      destruct from_start; [rewrite length_firstn|rewrite length_skipn]; lia. }
    assert (Hkept : Forall is_token kept).
    { unfold kept, first_tokens, last_tokens.
      destruct from_start; now apply Forall_firstn_skipn. }
    assert (Hne : kept <> []) by (apply length_nonempty; lia).
    exists (mkMessage (role self) (join SPACE kept ++ ELLIPSIS)).
    repeat split.
    + unfold kept. destruct from_start.
      * change (str_eqb (lit "start") (lit "start")) with true. cbv iota.
        now rewrite slice_to_first by lia.
      * change (str_eqb (lit "end") (lit "start")) with false.
        change (str_eqb (lit "end") (lit "end")) with true. cbv iota.
        now rewrite slice_from_last by lia.
    + simpl. rewrite split_truncated by assumption.
      unfold len in *. rewrite mark_last_length by assumption. lia.
    + lia.
    + intros _. simpl. now apply split_truncated.
  - rewrite Z.gtb_ltb in Hgt. apply Z.ltb_ge in Hgt.
    exists self. rewrite <- Etok. repeat split; lia.
Qed.

Lemma truncate_start_end_witness :
  1 <= 2
  /\ exists truncated,
       truncate first_sample (message "user" "a b c d") 2 (lit "end")
       = Some truncated
       /\ len (split (content truncated)) = 2.
Proof.
  split; [discriminate|].
  destruct (truncate_start_end first_sample (message "user" "a b c d") 2 false)
    as (truncated & Hrun & Hcount & _); [discriminate|].
  exists truncated. split; [exact Hrun | exact Hcount].
Defined.

(** ** Substring search *)

Lemma strip_prefix_sound (pat : str) :
  forall s rest, strip_prefix pat s = Some rest -> s = pat ++ rest.
Proof.
  induction pat as [|p pat IH]; intros s rest H; simpl in H.
  - now injection H as ->.
  - destruct s as [|c s]; [discriminate|].
    destruct (N.eqb p c) eqn:Hpc; [|discriminate].
    apply N.eqb_eq in Hpc. subst c. simpl. f_equal. now apply IH.
Qed.

Lemma strip_prefix_app (pat rest : str) :
  strip_prefix pat (pat ++ rest) = Some rest.
Proof.
  induction pat as [|p pat IH]; simpl; [reflexivity|].
  now rewrite N.eqb_refl.
Qed.

(** A prefix of a concatenation lies within the first part or runs over
    its end. *)
Lemma strip_prefix_split (pat : str) :
  forall a b rest,
    strip_prefix pat (a ++ b) = Some rest ->
    (exists r, strip_prefix pat a = Some r)
    \/ (exists q, pat = a ++ q /\ strip_prefix q b = Some rest).
Proof.
  induction pat as [|p pat IH]; intros a b rest H.
  - left. now exists a.
  - destruct a as [|x a].
    + right. now exists (p :: pat).
    + simpl in H. simpl. destruct (N.eqb p x) eqn:Hpx; [|discriminate].
      apply N.eqb_eq in Hpx. subst x.
      destruct (IH _ _ _ H) as [(r & Hr)|(q & -> & Hq)].
      * left. now exists r.
      * right. now exists q.
Qed.

Lemma find_sub_unfold (pat s : str) :
  find_sub pat s
  = match strip_prefix pat s with
    | Some rest => Some ([], rest)
    | None =>
        match s with
        | [] => None
        | c :: s' =>
            match find_sub pat s' with
            | Some (before, after) => Some (c :: before, after)
            | None => None
            end
        end
    end.
Proof. destruct s; reflexivity. Qed.

Lemma find_sub_sound (pat : str) :
  forall s before after,
    find_sub pat s = Some (before, after) -> s = before ++ pat ++ after.
Proof.
  induction s as [|c s IH]; intros before after H.
  - simpl in H. destruct (strip_prefix pat []) eqn:Hp; [|discriminate].
    injection H as <- <-. simpl. now apply strip_prefix_sound.
  - simpl in H. destruct (strip_prefix pat (c :: s)) eqn:Hp.
    + injection H as <- <-. simpl. now apply strip_prefix_sound.
    + destruct (find_sub pat s) as [[b a]|] eqn:Hf; [|discriminate].
      injection H as <- <-. simpl. f_equal. now apply IH.
Qed.

Lemma find_sub_complete (pat : str) :
  forall before after, find_sub pat (before ++ pat ++ after) <> None.
Proof.
  induction before as [|c before IH]; intros after.
  - rewrite find_sub_unfold, app_nil_l, strip_prefix_app. discriminate.
  - rewrite find_sub_unfold.
    destruct (strip_prefix pat ((c :: before) ++ pat ++ after));
      [discriminate|].
    rewrite <- app_comm_cons.
    specialize (IH after).
    destruct (find_sub pat (before ++ pat ++ after)) as [[b a]|];
      [discriminate|congruence].
Qed.

Lemma find_sub_none_iff (pat s : str) :
  find_sub pat s = None <-> absent pat s.
Proof.
  split.
  - intros Hnone before after ->. now apply (find_sub_complete pat before after).
  - intros Habs. destruct (find_sub pat s) as [[b a]|] eqn:Hf; [|reflexivity].
    exfalso. apply (Habs b a). now apply find_sub_sound.
Qed.

(** The leftmost occurrence of a pattern whose first character does not
    come back in it. *)
Lemma find_sub_first (c : char) (t : str) :
  ~ In c t ->
  forall before after,
    find_sub (c :: t) before = None ->
    find_sub (c :: t) (before ++ (c :: t) ++ after) = Some (before, after).
Proof.
  intros Hfresh.
  induction before as [|x before IH]; intros after Hnone.
  - rewrite find_sub_unfold, app_nil_l, strip_prefix_app. reflexivity.
  - rewrite find_sub_unfold in Hnone.
    destruct (strip_prefix (c :: t) (x :: before)) eqn:Hp; [discriminate|].
    destruct (find_sub (c :: t) before) as [[b a]|] eqn:Hf; [discriminate|].
    rewrite find_sub_unfold.
    destruct (strip_prefix (c :: t) ((x :: before) ++ (c :: t) ++ after))
      eqn:Hq.
    + exfalso.
      apply strip_prefix_split in Hq.
      destruct Hq as [(r & Hr)|(q & Heq & Hq)]; [congruence|].
      destruct q as [|y q].
      * rewrite app_nil_r in Heq. rewrite Heq in Hp.
        rewrite <- (app_nil_r (x :: before)) in Hp at 2.
        rewrite strip_prefix_app in Hp. discriminate.
      * simpl in Hq. destruct (N.eqb y c) eqn:Hyc; [|discriminate].
        apply N.eqb_eq in Hyc. subst y.
        injection Heq as _ Heq. apply Hfresh. rewrite Heq.
        apply in_or_app. right. now left.
    + rewrite <- app_comm_cons, (IH after eq_refl). reflexivity.
Qed.

Lemma step_open_fresh : exists t, STEP_OPEN = 60%N :: t /\ ~ In 60%N t.
Proof.
  eexists. split; [reflexivity|].
  simpl. intros H. repeat (destruct H as [H|H]; [discriminate H|]). exact H.
Qed.

Lemma step_close_fresh : exists t, STEP_CLOSE = 60%N :: t /\ ~ In 60%N t.
Proof.
  eexists. split; [reflexivity|].
  simpl. intros H. repeat (destruct H as [H|H]; [discriminate H|]). exact H.
Qed.

Lemma find_step_open (before after : str) :
  absent STEP_OPEN before ->
  find_sub STEP_OPEN (before ++ STEP_OPEN ++ after) = Some (before, after).
Proof.
  intros Habs. destruct step_open_fresh as (t & Heq & Hfresh).
  apply find_sub_none_iff in Habs. rewrite Heq in *.
  now apply find_sub_first.
Qed.

Lemma find_step_close (before after : str) :
  absent STEP_CLOSE before ->
  find_sub STEP_CLOSE (before ++ STEP_CLOSE ++ after) = Some (before, after).
Proof.
  intros Habs. destruct step_close_fresh as (t & Heq & Hfresh).
  apply find_sub_none_iff in Habs. rewrite Heq in *.
  now apply find_sub_first.
Qed.

(** ** extract_steps *)

Lemma search_step_span (before body after : str) :
  absent STEP_OPEN before -> absent STEP_CLOSE body ->
  search_span STEP_OPEN STEP_CLOSE
    (before ++ STEP_OPEN ++ body ++ STEP_CLOSE ++ after)
  = Some (body, after).
Proof.
  intros Hopen Hclose. unfold search_span.
  rewrite find_step_open by exact Hopen.
  now apply find_step_close.
Qed.

Lemma search_span_sound (open close s body after : str) :
  search_span open close s = Some (body, after) ->
  exists before, s = before ++ open ++ body ++ close ++ after.
Proof.
  unfold search_span. intros H.
  destruct (find_sub open s) as [[before rest]|] eqn:Hopen; [|discriminate].
  apply find_sub_sound in Hopen. apply find_sub_sound in H.
  exists before. now rewrite Hopen, H.
Qed.

Lemma search_span_none (open close s : str) :
  (forall a b c, s <> a ++ open ++ b ++ close ++ c) ->
  search_span open close s = None.
Proof.
  intros Hno.
  destruct (search_span open close s) as [[body after]|] eqn:H; [|reflexivity].
  apply search_span_sound in H. destruct H as (before & H).
  now apply Hno in H.
Qed.

Lemma absent_no_span (open close s : str) :
  absent open s -> forall a b c, s <> a ++ open ++ b ++ close ++ c.
Proof. intros Habs a b c. apply Habs. Qed.

(** A match leaves less text than it was searched in. *)
Lemma search_span_shorter (open close s body after : str) :
  search_span open close s = Some (body, after) ->
  (List.length after + List.length open <= List.length s)%nat.
Proof.
  intros H. apply search_span_sound in H. destruct H as (before & ->).
  rewrite !length_app. lia.
Qed.

(** Any fuel that covers the text gives the same matches: [findall] is not
    cut short by its fuel. *)
Lemma findall_spans_fuel (open close : str) :
  open <> [] ->
  forall fuel1 fuel2 s,
    (List.length s <= fuel1)%nat -> (List.length s <= fuel2)%nat ->
    findall_spans fuel1 open close s = findall_spans fuel2 open close s.
Proof.
  intros Hopen.
  assert (Hlen : (0 < List.length open)%nat).
  { destruct open; [congruence|simpl; lia]. }
  induction fuel1 as [|fuel1 IH]; intros fuel2 s H1 H2.
  - destruct fuel2 as [|fuel2]; [reflexivity|]. simpl.
    destruct (search_span open close s) as [[body after]|] eqn:Hs;
      [|reflexivity].
    apply search_span_shorter in Hs. lia.
  - simpl. destruct (search_span open close s) as [[body after]|] eqn:Hs.
    + pose proof (search_span_shorter _ _ _ _ _ Hs) as Hshort.
      destruct fuel2 as [|fuel2]; [lia|].
      simpl. rewrite Hs. f_equal. apply IH; lia.
    + destruct fuel2 as [|fuel2]; [reflexivity|]. simpl. now rewrite Hs.
Qed.

Lemma findall_unfold (open close s : str) :
  open <> [] ->
  findall open close s
  = match search_span open close s with
    | None => []
    | Some (body, after) => body :: findall open close after
    end.
Proof.
  intros Hopen. unfold findall.
  destruct (search_span open close s) as [[body after]|] eqn:Hs.
  - pose proof (search_span_shorter _ _ _ _ _ Hs) as Hshort.
    assert (Hlen : (0 < List.length open)%nat).
    { destruct open; [congruence|simpl; lia]. }
    destruct (List.length s) as [|n] eqn:Hn; [lia|].
    simpl. rewrite Hs. f_equal.
    apply findall_spans_fuel; [exact Hopen|lia|lia].
  - destruct (List.length s); simpl; [reflexivity|now rewrite Hs].
Qed.

Example strip_example : strip (lit "  a b
 ") = lit "a b".
Proof. reflexivity. Qed.

Example extract_steps_plan :
  extract_steps plan_response
  = Some [ lit "Take the square root."; lit "Check it is an integer." ].
Proof. reflexivity. Qed.

Example extract_steps_none :
  extract_steps (lit "I cannot think of any step.") = None.
Proof. reflexivity. Qed.

(** C5, as stated, fails: the two span contents are returned as they are
    written, the first with the spaces around it. *)
Lemma extract_steps_not_trimmed :
  two_step_spans padded_response (lit " a ") (lit "b")
  /\ extract_steps padded_response
     <> Some [ strip (lit " a "); strip (lit "b") ].
Proof.
  split.
  - exists [], [], []. repeat split;
      try (apply find_sub_none_iff; reflexivity).
    intros [|x a] b c H; discriminate H.
  - discriminate.
Qed.

(** C5, amended.  For a response with exactly two step spans,
    [extract_steps] returns the list of exactly the two span contents, in
    their order in the response and exactly as written between the tags,
    surrounding whitespace included. *)
Theorem extract_steps_two_spans (response first second : str) :
  two_step_spans response first second ->
  extract_steps response = Some [ first; second ].
Proof.
  intros (before & between & after & -> & Hb & Hf & Hm & Hs & Hafter).
  assert (Hopen : STEP_OPEN <> []) by discriminate.
  unfold extract_steps.
  rewrite findall_unfold by exact Hopen.
  rewrite search_step_span by assumption.
  rewrite findall_unfold by exact Hopen.
  rewrite search_step_span by assumption.
  rewrite findall_unfold by exact Hopen.
  rewrite search_span_none by exact Hafter.
  reflexivity.
Qed.

Lemma extract_steps_two_spans_witness :
  two_step_spans plan_response
    (lit "Take the square root.") (lit "Check it is an integer.")
  /\ extract_steps plan_response
     = Some [ lit "Take the square root."; lit "Check it is an integer." ].
Proof.
  assert (H : two_step_spans plan_response
                (lit "Take the square root.") (lit "Check it is an integer.")).
  { exists (lit "<thinking>" ++ NL ++ lit "    "), (NL ++ lit "    "),
      (NL ++ lit "</thinking>").
    repeat split; try (apply find_sub_none_iff; reflexivity).
    apply absent_no_span. apply find_sub_none_iff. reflexivity. }
  split; [exact H|].
  apply (extract_steps_two_spans _ _ _ H).
Defined.

(** ** The driver *)

Section DriverFacts.

Context {World : Type}.
Variable client : World -> list Entry -> World * completion.
Variable py_exec : World -> list (str * pyvalue) -> str -> World * exec_outcome.

Lemma bind_returned {A B : Type} (m : M World A) (k : A -> M World B)
    (st st' : State World) (a : A) :
  m st = (inr a, st') -> bind m k st = k a st'.
Proof. intros H. unfold bind. now rewrite H. Qed.

Lemma bind_raised {A B : Type} (m : M World A) (k : A -> M World B)
    (st st' : State World) (e : exn) :
  m st = (inl e, st') -> bind m k st = (inl e, st').
Proof. intros H. unfold bind. now rewrite H. Qed.

Lemma remember_then {B : Type} (role content : str) (k : unit -> M World B)
    (st : State World) :
  bind (remember role content) k st
  = k tt (mkState (add_message (memory st) (mkMessage role content))
                  (world st) (lm_calls st) (exec_calls st)).
Proof. reflexivity. Qed.

Lemma generate_response_run (st : State World) (w : World) (r : completion) :
  client (world st) (history (memory st)) = (w, r) ->
  generate_response client st
  = (inr r, mkState (memory st) w (S (lm_calls st)) (exec_calls st)).
Proof. intros H. unfold generate_response. now rewrite H. Qed.

Lemma execute_python_code_run (st : State World) (code : str) (w : World)
    (outcome : exec_outcome) (text : str) :
  py_exec (world st) exec_globals code = (w, outcome) ->
  returned_text code outcome = Some text ->
  execute_python_code py_exec code st
  = (inr text, mkState (memory st) w (lm_calls st) (S (exec_calls st))).
Proof.
  intros Hrun Htext. unfold execute_python_code. rewrite Hrun.
  destruct outcome; simpl in Htext; now inversion Htext.
Qed.

(** One iteration of the retry loop. *)
Lemma execution_loop_attempt (st : State World) (left max_retries i : nat)
    (code : str) (retries : nat) (w : World) (outcome : exec_outcome)
    (text : str) :
  py_exec (world st) exec_globals code = (w, outcome) ->
  returned_text code outcome = Some text ->
  execution_loop py_exec (S left) max_retries i code retries st
  = if reports_error text
    then execution_loop py_exec left max_retries i code (S retries)
           (mkState
              (add_messages (memory st)
                 (failure_messages i retries max_retries text))
              w (lm_calls st) (S (exec_calls st)))
    else (inr true,
          mkState (add_message (memory st) (mkMessage ASSISTANT text))
                  w (lm_calls st) (S (exec_calls st))).
Proof.
  intros Hrun Htext. cbn [execution_loop].
  rewrite (bind_returned _ _ _ _ _ (execute_python_code_run _ _ _ _ _ Hrun Htext)).
  destruct (reports_error text); reflexivity.
Qed.

(** The loop calls the interpreter at most once per iteration left, and
    never the model. *)
Lemma execution_loop_calls (left max_retries i : nat) (code : str) :
  forall (retries : nat) (st : State World),
    let after := snd (execution_loop py_exec left max_retries i code retries st) in
    (exec_calls after <= exec_calls st + left)%nat
    /\ lm_calls after = lm_calls st.
Proof.
  induction left as [|left IH]; intros retries st; cbv zeta.
  - simpl. split; [lia|reflexivity].
  - destruct (py_exec (world st) exec_globals code) as [w outcome] eqn:Hrun.
    destruct (returned_text code outcome) as [text|] eqn:Htext.
    + rewrite (execution_loop_attempt st left max_retries i code retries
                 w outcome text Hrun Htext).
      destruct (reports_error text).
      * match goal with
        | |- context [execution_loop _ _ _ _ _ ?r ?s] =>
            destruct (IH r s) as [Hexec Hlm]
        end.
        cbn [exec_calls lm_calls] in Hexec, Hlm. split; [lia|exact Hlm].
      * simpl. split; [lia|reflexivity].
    + destruct outcome; try discriminate Htext.
      cbn [execution_loop]. unfold bind, execute_python_code.
      rewrite Hrun. simpl. split; [lia|reflexivity].
Qed.

End DriverFacts.

Lemma contains_inside (pat a s b : str) :
  contains pat s = true -> contains pat (a ++ s ++ b) = true.
Proof.
  unfold contains. intros H.
  destruct (find_sub pat s) as [[x y]|] eqn:Hs; [|discriminate].
  apply find_sub_sound in Hs.
  destruct (find_sub pat (a ++ s ++ b)) eqn:Hf; [reflexivity|].
  exfalso. apply (find_sub_complete pat (a ++ x) (y ++ b)).
  rewrite <- Hf. f_equal. rewrite Hs, <- !app_assoc. reflexivity.
Qed.

Lemma lower_app (a b : str) : lower (a ++ b) = lower a ++ lower b.
Proof. apply map_app. Qed.

(** The text returned for a run without fault contains the word as soon as
    the code or the output does. *)
Lemma success_text_reports_error (code output : str) :
  contains (lit "error") (lower code) = true
  \/ contains (lit "error") (lower output) = true ->
  reports_error (success_text code output) = true.
Proof.
  unfold reports_error, success_text. rewrite !lower_app.
  intros [H|H].
  - rewrite (app_assoc (lower (lit _)) (lower NL)).
    now apply contains_inside.
  - rewrite !app_assoc. rewrite <- (app_nil_r (lower output)).
    now apply contains_inside.
Qed.

(** C10.  An attempt of the retry loop counts as failed exactly when the
    string returned by [execute_python_code] contains [error] once
    lowered: the loop then records the error and the retry messages and
    goes on with one more retry, and otherwise records the string and
    ends with success.  That string embeds the code and the output, so a
    run without fault whose code or output contains the word in any case
    is recorded as a failure and retried. *)
Theorem error_word_decides_failure {World : Type}
    (py_exec : World -> list (str * pyvalue) -> str -> World * exec_outcome)
    (st : State World) (left max_retries i : nat) (code : str)
    (retries : nat) (w : World) (outcome : exec_outcome) (text : str) :
  py_exec (world st) exec_globals code = (w, outcome) ->
  returned_text code outcome = Some text ->
  execution_loop py_exec (S left) max_retries i code retries st
  = (if contains (lit "error") (lower text)
     then execution_loop py_exec left max_retries i code (S retries)
            (mkState
               (add_messages (memory st)
                  (failure_messages i retries max_retries text))
               w (lm_calls st) (S (exec_calls st)))
     else (inr true,
           mkState (add_message (memory st) (mkMessage ASSISTANT text))
                   w (lm_calls st) (S (exec_calls st))))
  /\ (forall output,
        outcome = Completed output ->
        contains (lit "error") (lower code) = true
        \/ contains (lit "error") (lower output) = true ->
        contains (lit "error") (lower text) = true).
Proof.
  intros Hrun Htext. split.
  - apply (execution_loop_attempt py_exec st left max_retries i code retries
             w outcome text Hrun Htext).
  - intros output -> Hword. simpl in Htext. injection Htext as <-.
    now apply success_text_reports_error.
Qed.

Example harmless_snippet_runs :
  snd (host_exec square_host exec_globals harmless_snippet)
  = Completed (lit "no error here" ++ NL).
Proof. reflexivity. Qed.

Example harmless_snippet_retried :
  let r := run_snippet host_exec 3 1 harmless_snippet snippet_state in
  fst r = inr tt
  /\ exec_calls (snd r) = 3%nat
  /\ List.length (history (memory (snd r))) = 7%nat
  /\ nth_error (contents (snd r)) 6 = Some (final_error_message 1 3).
Proof. vm_compute. repeat split. Qed.

Lemma error_word_decides_failure_witness :
  host_exec (world snippet_state) exec_globals harmless_snippet
  = (square_host, Completed (lit "no error here" ++ NL))
  /\ contains (lit "error")
       (lower (success_text harmless_snippet (lit "no error here" ++ NL)))
     = true
  /\ execution_loop host_exec 3 3 1 harmless_snippet 0 snippet_state
     = execution_loop host_exec 2 3 1 harmless_snippet 1
         (mkState
            (add_messages (memory snippet_state)
               (failure_messages 1 0 3
                  (success_text harmless_snippet (lit "no error here" ++ NL))))
            square_host 0 1).
Proof.
  destruct (error_word_decides_failure host_exec snippet_state 2 3 1
              harmless_snippet 0 square_host
              (Completed (lit "no error here" ++ NL))
              (success_text harmless_snippet (lit "no error here" ++ NL))
              eq_refl eq_refl) as [Hstep Hword].
  assert (Hcontains : contains (lit "error")
            (lower (success_text harmless_snippet (lit "no error here" ++ NL)))
          = true).
  { apply (Hword _ eq_refl). right. reflexivity. }
  rewrite Hcontains in Hstep.
  split; [reflexivity|]. split; [exact Hcontains|exact Hstep].
Defined.

(** C8, amended.  The retry loop of a step runs the interpreter at most
    three times.  When the model's response to a step holds a snippet and
    each of the three attempts is reported as failed, that is returns a
    string containing [error] as the strings of all caught exceptions do,
    every attempt records its error message and its retry announcement,
    the terminal failure message is recorded after the third, and the
    driver goes on with the next step. *)
Theorem failing_snippet_moves_on {World : Type}
    (client : World -> list Entry -> World * completion)
    (py_exec : World -> list (str * pyvalue) -> str -> World * exec_outcome)
    (st : State World) (i : nat) (step : str) (rest : list str)
    (s code : str) (w0 w1 w2 w3 : World) (o1 o2 o3 : exec_outcome)
    (t1 t2 t3 : str) :
  (forall st0 : State World,
     (exec_calls (snd (run_snippet py_exec 3 i code st0))
      <= exec_calls st0 + 3)%nat)
  /\ (let asked :=
        add_message (memory st) (mkMessage ASSISTANT (step_message i step)) in
      let answered := add_message asked (mkMessage ASSISTANT s) in
      client (world st) (history asked) = (w0, Text s) ->
      extract_python_code s = Some code -> code <> [] ->
      py_exec w0 exec_globals code = (w1, o1) ->
      returned_text code o1 = Some t1 -> reports_error t1 = true ->
      py_exec w1 exec_globals code = (w2, o2) ->
      returned_text code o2 = Some t2 -> reports_error t2 = true ->
      py_exec w2 exec_globals code = (w3, o3) ->
      returned_text code o3 = Some t3 -> reports_error t3 = true ->
      do_steps client py_exec 3 i (step :: rest) st
      = do_steps client py_exec 3 (S i) rest
          (mkState
             (add_messages answered
                (failure_messages i 0 3 t1 ++ failure_messages i 1 3 t2
                 ++ failure_messages i 2 3 t3
                 ++ [mkMessage ASSISTANT (final_error_message i 3)]))
             w3 (S (lm_calls st)) (3 + exec_calls st))).
Proof.
  split.
  - intros st0. unfold run_snippet.
    destruct (execution_loop_calls py_exec 3 3 i code 0 st0) as [Hexec _].
    unfold bind. simpl Nat.sub.
    destruct (execution_loop py_exec 3 3 i code 0 st0) as [[e|[|]] st1];
      simpl in *; lia.
  - intros asked answered Hreply Hcode Hne Hr1 Ht1 He1 Hr2 Ht2 He2 Hr3 Ht3 He3.
    destruct code as [|c code]; [congruence|].
    cbn [do_steps].
    match goal with
    | |- _ = do_steps _ _ _ _ _ ?final =>
        rewrite (bind_returned _ _ st final tt); [reflexivity|]
    end.
    unfold do_step.
    rewrite remember_then.
    rewrite (bind_returned _ _ _ _ _
               (generate_response_run client
                  (mkState asked (world st) (lm_calls st) (exec_calls st))
                  w0 (Text s) Hreply)).
    cbn [remember_completion].
    rewrite remember_then.
    cbn [memory world lm_calls exec_calls]. fold answered.
    rewrite Hcode. unfold run_snippet. simpl Nat.sub.
    rewrite (bind_returned _ _ _
               (mkState
                  (add_messages answered
                     (failure_messages i 0 3 t1 ++ failure_messages i 1 3 t2
                      ++ failure_messages i 2 3 t3))
                  w3 (S (lm_calls st)) (3 + exec_calls st)) false).
    + unfold remember, add_messages.
      cbn [memory world lm_calls exec_calls].
      rewrite !fold_left_app. cbn [fold_left]. reflexivity.
    + rewrite (execution_loop_attempt py_exec
                 (mkState answered w0 (S (lm_calls st)) (exec_calls st))
                 2 3 i (c :: code) 0 w1 o1 t1 Hr1 Ht1), He1.
      cbn [memory world lm_calls exec_calls].
      rewrite (execution_loop_attempt py_exec
                 (mkState (add_messages answered (failure_messages i 0 3 t1))
                    w1 (S (lm_calls st)) (S (exec_calls st)))
                 1 3 i (c :: code) 1 w2 o2 t2 Hr2 Ht2), He2.
      cbn [memory world lm_calls exec_calls].
      rewrite (execution_loop_attempt py_exec
                 (mkState
                    (add_messages
                       (add_messages answered (failure_messages i 0 3 t1))
                       (failure_messages i 1 3 t2))
                    w2 (S (lm_calls st)) (S (S (exec_calls st))))
                 0 3 i (c :: code) 2 w3 o3 t3 Hr3 Ht3), He3.
      cbn [memory world lm_calls exec_calls execution_loop].
      unfold add_messages. rewrite !fold_left_app. reflexivity.
Qed.

Lemma failing_snippet_moves_on_witness :
  let run :=
    do_steps host_client host_exec 3 1 [ lit "Compute."; lit "Conclude." ]
      failing_step_state in
  raised run = None
  /\ exec_calls (snd run) = 3%nat
  /\ lm_calls (snd run) = 2%nat
  /\ nth_error (contents (snd run)) 8 = Some (final_error_message 1 3)
  /\ nth_error (contents (snd run)) 9 = Some (step_message 2 (lit "Conclude.")).
Proof.
  pose (w := mkHost [ Text (lit "It cannot be computed.");
                      Text (lit "<answer>Unknown.</answer>") ]
                    STANDARD_RUNS).
  pose (t := import_error_text (no_module_text (lit "numpy"))).
  pose proof (proj2 (failing_snippet_moves_on host_client host_exec
                       failing_step_state 1 (lit "Compute.") [ lit "Conclude." ]
                       (lit "<python>" ++ numpy_snippet ++ lit "</python>")
                       numpy_snippet w w w w
                       (RaisedImportError (no_module_text (lit "numpy")))
                       (RaisedImportError (no_module_text (lit "numpy")))
                       (RaisedImportError (no_module_text (lit "numpy")))
                       t t t)) as Hrun.
  cbv zeta in Hrun.
  assert (Hcode : numpy_snippet <> []) by discriminate.
  specialize (Hrun eq_refl eq_refl Hcode eq_refl eq_refl eq_refl
                eq_refl eq_refl eq_refl eq_refl eq_refl eq_refl).
  cbv zeta. rewrite Hrun. vm_compute. repeat split.
Defined.

Lemma request_steps_text {World : Type}
    (client : World -> list Entry -> World * completion)
    (st : State World) (remaining : nat) (w : World) (s : str) :
  client (world st) (history (memory st)) = (w, Text s) ->
  request_steps client (S remaining) st
  = (inr (Text s, extract_steps s),
     mkState (memory st) w (S (lm_calls st)) (exec_calls st)).
Proof.
  intros Hreply. cbn [request_steps].
  rewrite (bind_returned _ _ _ _ _
             (generate_response_run client st w (Text s) Hreply)).
  reflexivity.
Qed.

(** C3, what the code does.  When the first completion is a string without
    a step span, [extract_steps] returns [None] without raising, the loop
    ends at its first iteration, the response is recorded, and iterating
    over [None] raises [TypeError]: one model call, no retry, and not the
    parse-failure [ValueError]. *)
Theorem reasoning_without_steps {World : Type}
    (client : World -> list Entry -> World * completion)
    (py_exec : World -> list (str * pyvalue) -> str -> World * exec_outcome)
    (st : State World) (instruction : str) (max_retries : Z)
    (w : World) (s : str) :
  1 <= max_retries ->
  let asked :=
    add_messages (memory st)
      [ mkMessage (lit "user") instruction; mkMessage ASSISTANT STEPS_PROMPT ] in
  client (world st) (history asked) = (w, Text s) ->
  extract_steps s = None ->
  reasoning client py_exec instruction max_retries st
  = (inl NOT_ITERABLE,
     mkState (add_message asked (mkMessage ASSISTANT s))
             w (S (lm_calls st)) (exec_calls st)).
Proof.
  intros Hmax asked Hreply Hnone.
  unfold reasoning. rewrite !remember_then.
  destruct (Z.to_nat max_retries) as [|remaining] eqn:Hn; [lia|].
  rewrite (bind_returned _ _ _ _ _
             (request_steps_text client
                (mkState asked (world st) (lm_calls st) (exec_calls st))
                remaining w s Hreply)).
  rewrite Hnone. cbn [remember_completion memory world lm_calls exec_calls].
  rewrite remember_then. reflexivity.
Qed.

Lemma reasoning_without_steps_witness :
  let run := reasoning host_client host_exec QUESTION 5 (init 115200 stepless_host) in
  raised run = Some NOT_ITERABLE
  /\ raised run <> Some PARSE_FAILURE
  /\ lm_calls (snd run) = 1%nat.
Proof.
  assert (Hmax : 1 <= 5) by discriminate.
  pose proof (reasoning_without_steps host_client host_exec
                (init 115200 stepless_host) QUESTION 5
                (mkHost [] STANDARD_RUNS)
                (lit "I cannot think of any step.")
                Hmax eq_refl eq_refl) as Hrun.
  cbv zeta. rewrite Hrun. repeat split. discriminate.
Defined.

Example reasoning_not_a_string :
  let run := reasoning host_client host_exec QUESTION 5 (init 115200 mute_host) in
  raised run = Some PARSE_FAILURE /\ lm_calls (snd run) = 5%nat.
Proof. vm_compute. split; reflexivity. Qed.

Example reasoning_no_iteration :
  let run := reasoning host_client host_exec QUESTION 0 (init 115200 square_host) in
  raised run = Some PARSE_FAILURE /\ lm_calls (snd run) = 0%nat.
Proof. vm_compute. split; reflexivity. Qed.

Example reasoning_square :
  let run := reasoning host_client host_exec QUESTION 5 (init 115200 square_host) in
  fst run = inr (Text (lit "<answer>Yes, 4 is a perfect square.</answer>"))
  /\ contents (snd run)
     = [ SYSTEM_PROMPT; QUESTION; STEPS_PROMPT; plan_response;
         step_message 1 (lit "Take the square root.");
         lit "The square root of 4 is 2.";
         step_message 2 (lit "Check it is an integer.");
         lit "2 is an integer.";
         ANSWER_PROMPT;
         lit "<answer>Yes, 4 is a perfect square.</answer>" ].
Proof. vm_compute. split; reflexivity. Qed.

(** ** execute_python_code and imports *)

Example numpy_snippet_text :
  fst (execute_python_code host_exec numpy_snippet snippet_state)
  = inr (lit "ImportError occurred: No module named 'numpy'").
Proof. reflexivity. Qed.

Example math_snippet_text :
  fst (execute_python_code host_exec (lit "import math") snippet_state)
  = inr (success_text (lit "import math") []).
Proof. reflexivity. Qed.

Example os_snippet_imports : imports os_snippet (lit "os").
Proof. left. reflexivity. Qed.




(** ** Exceptions that are not caught *)

Example exit_snippet_aborts :
  let r := do_steps host_client host_exec 3 1
             [ lit "Compute."; lit "Conclude." ] exiting_step_state in
  raised r = Some (Propagated (lit "SystemExit"))
  /\ List.length (history (memory (snd r))) = 2%nat
  /\ lm_calls (snd r) = 1%nat.
Proof. vm_compute. repeat split. Qed.

(** C8, as stated, fails: the response to the step holds the snippet
    [raise SystemExit]; its execution fails with an exception that
    [execute_python_code] does not catch, nothing is retried or recorded,
    and the step ends with that exception instead of letting the driver go
    on. *)
Lemma uncaught_failure_aborts :
  ~ snippet_failures_contained host_client host_exec exiting_step_state 1
      (lit "Compute.").
Proof.
  intros H.
  destruct (H (mkHost [ Text (lit "It cannot be computed.") ] STANDARD_RUNS)
              (lit "<python>" ++ exit_snippet ++ lit "</python>")
              exit_snippet eq_refl eq_refl)
    as (st' & Hrun & _).
  - discriminate.
  - vm_compute in Hrun. discriminate Hrun.
Qed.

(** * Further properties of the code *)

(** ** Memory: the retention pass *)

(** A history whose messages all pass the test of the scan is kept whole. *)
Lemma retention_loop_keeps_all (reversed_history : list Entry) :
  forall new_history remaining,
    (forall newer x older, reversed_history = newer ++ x :: older ->
       is_system x = true
       \/ remaining - total_length newer - msg_length x >= 0) ->
    retention_loop reversed_history new_history remaining
    = rev reversed_history ++ new_history.
Proof.
  induction reversed_history as [|m rest IH]; intros acc rem Hall.
  - reflexivity.
  - simpl.
    assert (Hkeep : is_system m || (rem - msg_length m >=? 0) = true).
    { destruct (Hall [] m rest eq_refl) as [Hs|Hb].
      - now rewrite Hs.
      - apply orb_true_iff. right. apply Z.geb_le. simpl in Hb. lia. }
    rewrite Hkeep, IH.
    + now rewrite <- app_assoc.
    + intros newer x older ->.
      destruct (Hall (m :: newer) x older eq_refl) as [Hs|Hb]; [now left|].
      right. simpl in Hb. lia.
Qed.

(** The retention pass only removes a prefix of the history. *)
Lemma update_context_suffix (self : Memory) :
  exists dropped, history self = dropped ++ history (_update_context self).
Proof.
  unfold _update_context.
  destruct (total_length (history self) <=? context_length self).
  - now exists [].
  - destruct (retention_loop_scan (rev (history self)) [] (context_length self))
      as (kept & dropped & Hsplit & Hres & _).
    exists (rev dropped). simpl. rewrite Hres, app_nil_r.
    rewrite <- rev_app_distr, <- Hsplit. now rewrite rev_involutive.
Qed.

(** X1.  Running the retention pass a second time changes nothing. *)
Theorem update_context_idempotent (self : Memory) :
  _update_context (_update_context self) = _update_context self.
Proof.
  unfold _update_context at 2 3.
  destruct (total_length (history self) <=? context_length self) eqn:Hle.
  - unfold _update_context. now rewrite Hle.
  - destruct (retention_loop_scan (rev (history self)) [] (context_length self))
      as (kept & dropped & _ & Hres & Hkept & _).
    rewrite Hres, app_nil_r. unfold _update_context. simpl.
    destruct (total_length (rev kept) <=? context_length self); [reflexivity|].
    rewrite rev_involutive.
    rewrite (retention_loop_keeps_all kept [] (context_length self) Hkept).
    now rewrite app_nil_r.
Qed.

(** X2.  While the total token count stays within the budget, a sequence
    of [add_message] calls appends every message, in order, and drops
    nothing. *)
Theorem add_messages_within_budget (messages : list Message) :
  forall self : Memory,
    total_length (history self ++ map to_dict messages)
    <= context_length self ->
    history (add_messages self messages)
    = history self ++ map to_dict messages.
Proof.
  induction messages as [|m rest IH]; intros self Hfit; simpl.
  - now rewrite app_nil_r.
  - simpl in Hfit. rewrite total_length_app in Hfit. simpl in Hfit.
    pose proof (total_length_nonneg (map to_dict rest)) as Hrest.
    assert (Hone : add_message self m
                   = mkMemory (context_length self) (history self ++ [to_dict m])).
    { unfold add_message, _update_context. simpl.
      rewrite total_length_app. simpl.
      destruct (total_length (history self) + (msg_length (to_dict m) + 0)
                <=? context_length self) eqn:Hle; [reflexivity|].
      apply Z.leb_gt in Hle. lia. }
    unfold add_messages in *. rewrite Hone, IH; simpl.
    + now rewrite <- app_assoc.
    + rewrite <- app_assoc. simpl. rewrite total_length_app. simpl. lia.
Qed.

Lemma add_messages_within_budget_witness :
  history (add_messages (mkMemory 5 [ entry "system" "s" ])
             [ message "user" "a b"; message "assistant" "c d" ])
  = [ entry "system" "s"; entry "user" "a b"; entry "assistant" "c d" ].
Proof.
  apply (add_messages_within_budget
           [ message "user" "a b"; message "assistant" "c d" ]
           (mkMemory 5 [ entry "system" "s" ])).
  discriminate.
Defined.

(** X3.  After any sequence of [add_message] calls the history is a suffix
    of the old history followed by the messages added: what is kept is in
    chronological order, and nothing is kept that was not added. *)
Theorem add_messages_suffix (messages : list Message) :
  forall self : Memory,
    exists dropped,
      history self ++ map to_dict messages
      = dropped ++ history (add_messages self messages).
Proof.
  induction messages as [|m rest IH]; intros self; simpl.
  - exists []. now rewrite app_nil_r.
  - destruct (IH (add_message self m)) as (dropped2 & H2).
    destruct (update_context_suffix
                (mkMemory (context_length self) (history self ++ [to_dict m])))
      as (dropped1 & H1).
    simpl in H1. fold (add_message self m) in H1.
    exists (dropped1 ++ dropped2).
    unfold add_messages in *. rewrite <- app_assoc, <- H2, app_assoc, <- H1.
    now rewrite <- app_assoc.
Qed.

(** X4.  A message that is not a system message and does not fit the budget
    together with the messages after it is discarded with everything older
    than it, system messages included: the history left is a suffix of the
    messages after it. *)
Theorem update_context_cut (self : Memory) (older : list Entry) (x : Entry)
    (newer : list Entry) :
  history self = older ++ x :: newer ->
  is_system x = false ->
  msg_length x + total_length newer > context_length self ->
  exists dropped, newer = dropped ++ history (_update_context self).
Proof.
  intros Hsplit Hs Hbig.
  pose proof (total_length_nonneg older) as Holder.
  unfold _update_context.
  destruct (total_length (history self) <=? context_length self) eqn:Hle.
  { apply Z.leb_le in Hle. rewrite Hsplit, total_length_app in Hle.
    simpl in Hle. lia. }
  destruct (retention_loop_scan (rev (history self)) [] (context_length self))
    as (kept & dropped & Hrev & Hres & Hkept & _).
  simpl. rewrite Hres, app_nil_r.
  assert (Hh : history self = rev dropped ++ rev kept).
  { rewrite <- rev_app_distr, <- Hrev. now rewrite rev_involutive. }
  rewrite Hsplit in Hh. apply app_eq_app in Hh.
  assert (Hnot : forall l, rev kept <> l ++ x :: newer).
  { intros l Heq.
    assert (Hk : kept = rev newer ++ x :: rev l).
    { rewrite <- (rev_involutive kept), Heq, rev_app_distr. simpl.
      now rewrite <- app_assoc. }
    destruct (Hkept _ _ _ Hk) as [Hsys|Hfit]; [congruence|].
    rewrite total_length_rev in Hfit. lia. }
  destruct Hh as (l & [[Hd Hk]|[Ho Hk]]).
  - exfalso. apply (Hnot l). exact Hk.
  - destruct l as [|y l].
    + exfalso. apply (Hnot []). simpl in Hk. now rewrite <- Hk.
    + simpl in Hk. injection Hk as _ Hk. now exists l.
Qed.

Lemma update_context_cut_witness :
  exists dropped,
    [ entry "system" "s"; entry "user" "d e" ]
    = dropped ++ history (_update_context crowded_memory).
Proof.
  apply (update_context_cut crowded_memory
           [ entry "system" "x y" ] (entry "user" "a b c")
           [ entry "system" "s"; entry "user" "d e" ]);
    reflexivity.
Defined.

(** X5.  [clear] followed by [add_message] leaves exactly the message
    added when it is a system message or fits the budget, and an empty
    history otherwise. *)
Theorem clear_then_add_message (self : Memory) (m : Message) :
  history (add_message (clear self) m)
  = if is_system (to_dict m) || (msg_length (to_dict m) <=? context_length self)
    then [ to_dict m ] else [].
Proof.
  unfold add_message, clear, _update_context. simpl.
  rewrite Z.add_0_r.
  destruct (msg_length (to_dict m) <=? context_length self) eqn:Hle.
  - now rewrite orb_true_r.
  - rewrite orb_false_r. simpl.
    assert (Hge : (context_length self - msg_length (to_dict m) >=? 0) = false).
    { rewrite Z.geb_leb. apply Z.leb_gt. apply Z.leb_gt in Hle. lia. }
    rewrite Hge, orb_false_r.
    now destruct (is_system (to_dict m)).
Qed.

(** ** Message.truncate: the other modes and the bounds *)

Lemma truncate_over (random_sample : list str -> Z -> option (list str))
    (self : Message) (max_tokens : Z) (mode : str) :
  len (split (content self)) > max_tokens ->
  truncate random_sample self max_tokens mode
  = match
      (if str_eqb mode (lit "start") then
         Some (join SPACE (slice_to (split (content self)) max_tokens))
       else if str_eqb mode (lit "end") then
         Some (join SPACE (slice_from (split (content self)) (- max_tokens)))
       else if str_eqb mode (lit "mix") then
         Some (join SPACE
                 (slice_to (split (content self)) (max_tokens / 2)
                  ++ slice_from (split (content self)) ((- max_tokens) / 2)))
       else if str_eqb mode (lit "random") then
         option_map (join SPACE)
           (random_sample (split (content self)) max_tokens)
       else Some (content self))
    with
    | Some c => Some (mkMessage (role self) (c ++ ELLIPSIS))
    | None => None
    end.
Proof.
  intros Hgt. unfold truncate.
  destruct (len (split (content self)) >? max_tokens) eqn:H; [reflexivity|].
  rewrite Z.gtb_ltb in H. apply Z.ltb_ge in H. lia.
Qed.

Lemma truncate_within (random_sample : list str -> Z -> option (list str))
    (self : Message) (max_tokens : Z) (mode : str) :
  len (split (content self)) <= max_tokens ->
  truncate random_sample self max_tokens mode = Some self.
Proof.
  intros Hle. unfold truncate.
  destruct (len (split (content self)) >? max_tokens) eqn:H; [|reflexivity].
  rewrite Z.gtb_ltb in H. apply Z.ltb_lt in H. lia.
Qed.

Lemma slice_mix (tokens : list str) (max_tokens : Z) :
  1 <= max_tokens -> max_tokens < len tokens ->
  slice_to tokens (max_tokens / 2) ++ slice_from tokens ((- max_tokens) / 2)
  = first_tokens (Z.to_nat (max_tokens / 2)) tokens
    ++ last_tokens (Z.to_nat (max_tokens - max_tokens / 2)) tokens.
Proof.
  intros Hmax Hlen.
  assert (Hhalf : 0 <= max_tokens / 2) by (apply Z.div_pos; lia).
  rewrite slice_to_first by exact Hhalf. f_equal.
  unfold slice_from, norm_index, last_tokens, len in *.
  assert (Hneg : (- max_tokens) / 2 = - (max_tokens - max_tokens / 2)).
  { Z.div_mod_to_equations. lia. }
  assert (Hupper : max_tokens / 2 < max_tokens).
  { Z.div_mod_to_equations. lia. }
  rewrite Hneg.
  destruct (- (max_tokens - max_tokens / 2) <? 0) eqn:Hsign.
  - f_equal. lia.
  - apply Z.ltb_ge in Hsign. lia.
Qed.

(** The tokens a truncation in mode [start], [end] or [mix] selects. *)
Lemma truncate_selects (random_sample : list str -> Z -> option (list str))
    (self : Message) (max_tokens : Z) (mode : str) :
  1 <= max_tokens -> len (split (content self)) > max_tokens ->
  mode = lit "start" \/ mode = lit "end" \/ mode = lit "mix" ->
  exists kept,
    truncate random_sample self max_tokens mode
    = Some (mkMessage (role self) (join SPACE kept ++ ELLIPSIS))
    /\ Forall is_token kept
    /\ List.length kept = Z.to_nat max_tokens
    /\ (mode = lit "mix" ->
        kept = first_tokens (Z.to_nat (max_tokens / 2)) (split (content self))
               ++ last_tokens (Z.to_nat (max_tokens - max_tokens / 2))
                    (split (content self))).
Proof.
  intros Hmax Hgt Hmode. rewrite truncate_over by exact Hgt.
  pose proof (split_tokens (content self)) as Htok.
  remember (split (content self)) as tokens eqn:Etok.
  assert (Hhalf : 0 <= max_tokens / 2 <= max_tokens).
  { Z.div_mod_to_equations. lia. }
  destruct Hmode as [ -> | [ -> | -> ] ].
  - exists (first_tokens (Z.to_nat max_tokens) tokens).
    change (str_eqb (lit "start") (lit "start")) with true. cbv iota.
    rewrite slice_to_first by lia. repeat split.
    + unfold first_tokens. now apply Forall_firstn_skipn.
    + unfold first_tokens, len in *. rewrite length_firstn. lia.
    + discriminate.
  - exists (last_tokens (Z.to_nat max_tokens) tokens).
    change (str_eqb (lit "end") (lit "start")) with false.
    change (str_eqb (lit "end") (lit "end")) with true. cbv iota.
    rewrite slice_from_last by lia. repeat split.
    + unfold last_tokens. now apply Forall_firstn_skipn.
    + unfold last_tokens, len in *. rewrite length_skipn. lia.
    + discriminate.
  - exists (first_tokens (Z.to_nat (max_tokens / 2)) tokens
            ++ last_tokens (Z.to_nat (max_tokens - max_tokens / 2)) tokens).
    change (str_eqb (lit "mix") (lit "start")) with false.
    change (str_eqb (lit "mix") (lit "end")) with false.
    change (str_eqb (lit "mix") (lit "mix")) with true. cbv iota.
    rewrite slice_mix by lia. repeat split.
    + apply Forall_app. unfold first_tokens, last_tokens.
      split; now apply Forall_firstn_skipn.
    + unfold first_tokens, last_tokens, len in *.
      rewrite length_app, length_firstn, length_skipn. lia.
Qed.

(** X6.  In mode [mix], for [max_tokens >= 1] and a content of more
    tokens, the result has exactly [max_tokens] tokens: the first
    [max_tokens // 2] tokens of the original followed by its last
    [max_tokens - max_tokens // 2] tokens, the ellipsis being glued to the
    last one.  The two parts never overlap. *)
Theorem truncate_mix (random_sample : list str -> Z -> option (list str))
    (self : Message) (max_tokens : Z) :
  1 <= max_tokens ->
  let tokens := split (content self) in
  len tokens > max_tokens ->
  let kept :=
    first_tokens (Z.to_nat (max_tokens / 2)) tokens
    ++ last_tokens (Z.to_nat (max_tokens - max_tokens / 2)) tokens in
  exists truncated,
    truncate random_sample self max_tokens (lit "mix") = Some truncated
    /\ split (content truncated) = mark_last kept
    /\ len (split (content truncated)) = max_tokens
    /\ (Z.to_nat (max_tokens / 2)
        <= List.length tokens - Z.to_nat (max_tokens - max_tokens / 2))%nat.
Proof.
  intros Hmax tokens Hgt kept.
  destruct (truncate_selects random_sample self max_tokens (lit "mix")
              Hmax Hgt (or_intror (or_intror eq_refl)))
    as (kept' & Hrun & Htok & Hlen & Hkept).
  specialize (Hkept eq_refl). fold tokens in Hkept. fold kept in Hkept.
  subst kept'.
  assert (Hne : kept <> []) by (apply length_nonempty; lia).
  exists (mkMessage (role self) (join SPACE kept ++ ELLIPSIS)).
  repeat split.
  - exact Hrun.
  - simpl. now apply split_truncated.
  - simpl. rewrite split_truncated by assumption.
    unfold len. rewrite mark_last_length by assumption. lia.
  - unfold len in Hgt. fold tokens in Hgt.
    assert (0 <= max_tokens / 2 <= max_tokens)
      by (Z.div_mod_to_equations; lia).
    lia.
Qed.

Lemma truncate_mix_witness :
  exists truncated,
    truncate first_sample (message "user" "a b c d e f") 3 (lit "mix")
    = Some truncated
    /\ split (content truncated) = [ lit "a"; lit "e"; lit "f..." ].
Proof.
  destruct (truncate_mix first_sample (message "user" "a b c d e f") 3)
    as (truncated & Hrun & Hsplit & _); [discriminate|reflexivity|].
  exists truncated. split; [exact Hrun|exact Hsplit].
Defined.

(** X7.  With [max_tokens = 0], the modes [end] and [mix] keep every token
    of a content that has one: [tokens[-0:]] is the whole list.  The
    content becomes its tokens joined by single spaces, with the ellipsis
    glued to the last one. *)
Theorem truncate_zero_keeps_all
    (random_sample : list str -> Z -> option (list str))
    (self : Message) (mode : str) :
  mode = lit "end" \/ mode = lit "mix" ->
  split (content self) <> [] ->
  truncate random_sample self 0 mode
  = Some (mkMessage (role self)
            (join SPACE (split (content self)) ++ ELLIPSIS))
  /\ split (join SPACE (split (content self)) ++ ELLIPSIS)
     = mark_last (split (content self)).
Proof.
  intros Hmode Hne. split.
  - rewrite truncate_over.
    + destruct Hmode as [->| ->]; reflexivity.
    + unfold len. destruct (split (content self)); [congruence|simpl; lia].
  - apply split_truncated; [apply split_tokens|exact Hne].
Qed.

Lemma truncate_zero_keeps_all_witness :
  truncate first_sample (message "user" "a   b") 0 (lit "end")
  = Some (message "user" "a b...").
Proof.
  apply (truncate_zero_keeps_all first_sample (message "user" "a   b")
           (lit "end")).
  - now left.
  - discriminate.
Defined.

(** X8.  For [max_tokens >= 1] and the modes [start], [end] and [mix],
    truncating the result of a truncation again changes nothing. *)
Theorem truncate_twice (random_sample : list str -> Z -> option (list str))
    (self truncated : Message) (max_tokens : Z) (mode : str) :
  1 <= max_tokens ->
  mode = lit "start" \/ mode = lit "end" \/ mode = lit "mix" ->
  truncate random_sample self max_tokens mode = Some truncated ->
  truncate random_sample truncated max_tokens mode = Some truncated.
Proof.
  intros Hmax Hmode Hrun.
  destruct (Z_le_gt_dec (len (split (content self))) max_tokens) as [Hle|Hgt].
  - rewrite truncate_within in Hrun by exact Hle. injection Hrun as <-.
    now apply truncate_within.
  - destruct (truncate_selects random_sample self max_tokens mode
                Hmax Hgt Hmode) as (kept & Hsel & Htok & Hlen & _).
    rewrite Hsel in Hrun. injection Hrun as <-.
    apply truncate_within. simpl.
    assert (Hne : kept <> []) by (apply length_nonempty; lia).
    rewrite split_truncated by assumption.
    unfold len. rewrite mark_last_length by assumption. lia.
Qed.

Lemma truncate_twice_witness :
  truncate first_sample (message "user" "a b...") 2 (lit "start")
  = Some (message "user" "a b...").
Proof.
  apply (truncate_twice first_sample (message "user" "a b c d")
           (message "user" "a b...") 2 (lit "start")).
  - discriminate.
  - now left.
  - reflexivity.
Defined.

(** ** The extraction helpers *)

Lemma find_sub_leftmost (pat : str) :
  forall before after s found rest,
    s = before ++ pat ++ after ->
    find_sub pat s = Some (found, rest) ->
    (List.length found <= List.length before)%nat.
Proof.
  induction before as [|x before IH]; intros after s found rest -> Hfind.
  - rewrite find_sub_unfold, app_nil_l, strip_prefix_app in Hfind.
    injection Hfind as <- _. simpl. lia.
  - rewrite find_sub_unfold in Hfind.
    destruct (strip_prefix pat ((x :: before) ++ pat ++ after)).
    + injection Hfind as <- _. simpl. lia.
    + rewrite <- app_comm_cons in Hfind.
      destruct (find_sub pat (before ++ pat ++ after)) as [[f r]|] eqn:Hf;
        [|discriminate].
      injection Hfind as <- _. simpl.
      specialize (IH after _ f r eq_refl Hf). lia.
Qed.

Lemma app_suffix {A : Type} (x : list A) :
  forall y z w, x ++ y = z ++ w ->
    (List.length x <= List.length z)%nat -> exists d, y = d ++ w.
Proof.
  induction x as [|a x IH]; intros y z w Heq Hlen.
  - now exists z.
  - destruct z as [|b z]; [simpl in Hlen; lia|].
    simpl in Heq. injection Heq as _ Heq.
    apply (IH y z w Heq). simpl in Hlen. lia.
Qed.

(** A span anywhere in the text makes the pattern match. *)
Lemma search_span_complete (open close a b c : str) :
  search_span open close (a ++ open ++ b ++ close ++ c) <> None.
Proof.
  unfold search_span.
  destruct (find_sub open (a ++ open ++ b ++ close ++ c))
    as [[found rest]|] eqn:Hfind.
  - pose proof (find_sub_leftmost open a (b ++ close ++ c) _ found rest
                  eq_refl Hfind) as Hleft.
    apply find_sub_sound in Hfind.
    rewrite !app_assoc in Hfind. rewrite <- !(app_assoc a open) in Hfind.
    rewrite <- !app_assoc in Hfind.
    assert (Hd : exists d, rest = d ++ b ++ close ++ c).
    { apply (app_suffix (found ++ open) rest (a ++ open) (b ++ close ++ c)).
      - rewrite <- !app_assoc. now symmetry.
      - rewrite !length_app. lia. }
    destruct Hd as (d & ->).
    rewrite (app_assoc d b). apply find_sub_complete.
  - exfalso. revert Hfind. apply find_sub_complete.
Qed.

Lemma search_span_none_iff (open close s : str) :
  search_span open close s = None <-> no_span open close s.
Proof.
  split.
  - intros Hnone a b c ->. revert Hnone. apply search_span_complete.
  - apply search_span_none.
Qed.

(** X9.  Each extraction helper returns [None] exactly when the response
    holds no span of its tags, and [extract_steps] never returns an empty
    list. *)
Theorem extraction_none_iff (response : str) :
  (extract_steps response = None
   <-> no_span STEP_OPEN STEP_CLOSE response)
  /\ (extract_python_code response = None
      <-> no_span PYTHON_OPEN PYTHON_CLOSE response)
  /\ extract_steps response <> Some [].
Proof.
  unfold extract_steps, extract_python_code. repeat split.
  - intros H. apply search_span_none_iff.
    destruct (search_span STEP_OPEN STEP_CLOSE response); [discriminate|reflexivity].
  - intros H. apply search_span_none_iff in H. now rewrite H.
  - intros H. apply search_span_none_iff.
    destruct (search_span PYTHON_OPEN PYTHON_CLOSE response) as [[body rest]|];
      [discriminate|reflexivity].
  - intros H. apply search_span_none_iff in H. now rewrite H.
  - destruct (search_span STEP_OPEN STEP_CLOSE response) as [[body rest]|] eqn:Hs;
      [|discriminate].
    rewrite findall_unfold by discriminate. rewrite Hs. discriminate.
Qed.

Lemma findall_spans_text (spans : list (str * str)) (tail : str) :
  Forall (fun span => absent STEP_OPEN (fst span)
                      /\ absent STEP_CLOSE (snd span)) spans ->
  no_span STEP_OPEN STEP_CLOSE tail ->
  findall STEP_OPEN STEP_CLOSE (spans_text spans tail) = map snd spans.
Proof.
  intros Hspans Htail.
  induction Hspans as [|[gap body] rest [Hgap Hbody] Hrest IH];
    cbn [spans_text map snd].
  - rewrite findall_unfold by discriminate.
    now rewrite search_span_none by exact Htail.
  - rewrite findall_unfold by discriminate.
    cbn [fst snd] in Hgap, Hbody.
    rewrite search_step_span by assumption. now rewrite IH.
Qed.

(** X10.  For a response made of any positive number of step spans,
    [extract_steps] returns the contents of all of them, one per span, in
    the order of the response. *)
Theorem extract_steps_all_spans (spans : list (str * str)) (tail : str) :
  spans <> [] ->
  Forall (fun span => absent STEP_OPEN (fst span)
                      /\ absent STEP_CLOSE (snd span)) spans ->
  no_span STEP_OPEN STEP_CLOSE tail ->
  extract_steps (spans_text spans tail) = Some (map snd spans).
Proof.
  intros Hne Hspans Htail. unfold extract_steps.
  rewrite findall_spans_text by assumption.
  destruct spans as [|[gap body] rest]; [congruence|].
  inversion Hspans as [|? ? [Hgap Hbody] _]; subst.
  cbn [fst snd] in Hgap, Hbody.
  cbn [spans_text]. now rewrite search_step_span by assumption.
Qed.

Lemma extract_steps_all_spans_witness :
  extract_steps
    (spans_text [ ([], lit "one"); (lit " ", lit "two"); (NL, lit "three") ]
       (lit "</thinking>"))
  = Some [ lit "one"; lit "two"; lit "three" ].
Proof.
  apply (extract_steps_all_spans
           [ ([], lit "one"); (lit " ", lit "two"); (NL, lit "three") ]
           (lit "</thinking>")).
  - discriminate.
  - repeat constructor; apply find_sub_none_iff; reflexivity.
  - unfold no_span. apply absent_no_span. apply find_sub_none_iff.
    reflexivity.
Defined.

Lemma python_open_fresh : exists t, PYTHON_OPEN = 60%N :: t /\ ~ In 60%N t.
Proof.
  eexists. split; [reflexivity|].
  simpl. intros H. repeat (destruct H as [H|H]; [discriminate H|]). exact H.
Qed.

Lemma python_close_fresh : exists t, PYTHON_CLOSE = 60%N :: t /\ ~ In 60%N t.
Proof.
  eexists. split; [reflexivity|].
  simpl. intros H. repeat (destruct H as [H|H]; [discriminate H|]). exact H.
Qed.

(** X11.  [extract_python_code] returns the content of the first python
    span only, with the whitespace around it removed; whatever follows the
    span, further spans included, is ignored. *)
Theorem extract_python_code_first (before body after : str) :
  absent PYTHON_OPEN before ->
  absent PYTHON_CLOSE body ->
  extract_python_code
    (before ++ PYTHON_OPEN ++ body ++ PYTHON_CLOSE ++ after)
  = Some (strip body).
Proof.
  intros Hopen Hclose. unfold extract_python_code, search_span.
  destruct python_open_fresh as (t & Heq & Hfresh).
  destruct python_close_fresh as (t' & Heq' & Hfresh').
  apply find_sub_none_iff in Hopen. apply find_sub_none_iff in Hclose.
  rewrite Heq, Heq' in *.
  rewrite (find_sub_first _ _ Hfresh before _ Hopen).
  now rewrite (find_sub_first _ _ Hfresh' body _ Hclose).
Qed.

Lemma extract_python_code_first_witness :
  extract_python_code
    (lit "Run: " ++ PYTHON_OPEN ++ (NL ++ lit "print('a')" ++ NL)
     ++ PYTHON_CLOSE ++ lit " or <python>print('b')</python>")
  = Some (lit "print('a')").
Proof.
  apply (extract_python_code_first (lit "Run: ")
           (NL ++ lit "print('a')" ++ NL)
           (lit " or <python>print('b')</python>"));
    apply find_sub_none_iff; reflexivity.
Defined.

Lemma lstrip_head (s : str) (c : char) (rest : str) :
  lstrip s = c :: rest -> is_space c = false.
Proof.
  induction s as [|x s IH]; simpl; [discriminate|].
  destruct (is_space x) eqn:Hx; [exact IH|].
  intros H. injection H as <- _. exact Hx.
Qed.

Lemma lstrip_suffix (s : str) : exists w, s = w ++ lstrip s.
Proof.
  induction s as [|x s (w & IH)]; [now exists []|]. simpl.
  destruct (is_space x).
  - exists (x :: w). simpl. now rewrite <- IH.
  - now exists [].
Qed.

Lemma rstrip_prefix (s : str) : exists w, s = rstrip s ++ w.
Proof.
  unfold rstrip. destruct (lstrip_suffix (rev s)) as (w & Hw).
  exists (rev w). rewrite <- rev_app_distr, <- Hw. now rewrite rev_involutive.
Qed.

Lemma rstrip_last (s : str) (c : char) (front : str) :
  rstrip s = front ++ [c] -> is_space c = false.
Proof.
  unfold rstrip. intros H.
  apply (f_equal (@rev char)) in H.
  rewrite rev_involutive, rev_app_distr in H. simpl in H.
  now apply lstrip_head in H.
Qed.

(** X12.  The code returned by [extract_python_code] neither starts nor
    ends with a whitespace character. *)
Theorem extract_python_code_stripped (response code : str) :
  extract_python_code response = Some code ->
  (forall c rest, code = c :: rest -> is_space c = false)
  /\ (forall front c, code = front ++ [c] -> is_space c = false).
Proof.
  unfold extract_python_code.
  destruct (search_span PYTHON_OPEN PYTHON_CLOSE response) as [[body rest']|];
    [|discriminate].
  intros H. injection H as <-. unfold strip. split.
  - intros c rest Hc.
    destruct (rstrip_prefix (lstrip body)) as (w & Hw).
    rewrite Hc in Hw. simpl in Hw. now apply lstrip_head in Hw.
  - intros front c Hc. now apply rstrip_last in Hc.
Qed.

Lemma extract_python_code_stripped_witness :
  is_space (N_of_ascii "p") = false /\ is_space (N_of_ascii ")") = false.
Proof.
  destruct (extract_python_code_stripped
              (lit "<python>  print('a')  </python>") (lit "print('a')")
              eq_refl) as [Hfirst Hlast].
  split.
  - apply (Hfirst _ (lit "rint('a')") eq_refl).
  - apply (Hlast (lit "print('a'") _ eq_refl).
Defined.

(** ** The word [error] in what execute_python_code returns *)

Lemma contains_intro (pat s x y : str) :
  s = x ++ pat ++ y -> contains pat s = true.
Proof.
  intros ->. unfold contains.
  destruct (find_sub pat (x ++ pat ++ y)) eqn:Hf; [reflexivity|].
  exfalso. revert Hf. apply find_sub_complete.
Qed.

(** An occurrence of a pattern cannot run over a character the pattern
    does not contain. *)
Lemma contains_across (pat a b : str) (c : char) :
  ~ In c pat ->
  contains pat (a ++ c :: b) = true ->
  contains pat a = true \/ contains pat b = true.
Proof.
  intros Hfresh. unfold contains at 1.
  destruct (find_sub pat (a ++ c :: b)) as [[x y]|] eqn:Hf; [|discriminate].
  intros _. apply find_sub_sound in Hf. apply app_eq_app in Hf.
  destruct Hf as (l & [[Ha Hp]|[Hx Hb]]).
  - symmetry in Hp. apply app_eq_app in Hp.
    destruct Hp as (l2 & [[Hl Hy]|[Hpat Hcb]]).
    + left. apply (contains_intro pat a x l2). now rewrite Ha, Hl.
    + destruct l2 as [|c' l2].
      * left. apply (contains_intro pat a x []).
        rewrite Ha, Hpat, !app_nil_r. reflexivity.
      * exfalso. simpl in Hcb. injection Hcb as <- _.
        apply Hfresh. rewrite Hpat. apply in_or_app. right. now left.
  - destruct l as [|c' l].
    + destruct pat as [|p pat].
      * left. apply (contains_intro [] a [] a). reflexivity.
      * exfalso. simpl in Hb. injection Hb as <- _. apply Hfresh. now left.
    + right. simpl in Hb. injection Hb as _ Hb.
      now apply (contains_intro pat b l y).
Qed.

Lemma error_has_no_newline : ~ In 10%N (lit "error").
Proof.
  simpl. intros H. repeat (destruct H as [H|H]; [discriminate H|]). exact H.
Qed.

(** X13.  The two strings [execute_python_code] returns for a caught
    exception always contain the word [error]: an attempt that raised an
    [Exception] is always recorded as failed by the retry loop. *)
Theorem caught_exception_reports_error (message trace : str) :
  reports_error (import_error_text message) = true
  /\ reports_error (exception_text trace) = true.
Proof.
  unfold reports_error, import_error_text, exception_text.
  rewrite !lower_app. split.
  - apply (contains_inside (lit "error") []
             (lower (lit "ImportError occurred: ")) (lower message)).
    reflexivity.
  - apply (contains_inside (lit "error") []
             (lower (lit "An error occurred while executing the code:"))
             (lower NL ++ lower trace)).
    reflexivity.
Qed.

(** X14.  The string returned for a run without fault contains the word
    [error] exactly when the code or the captured output contains it, in
    any letter case: such a run is recorded as a success exactly when
    neither does. *)
Theorem success_reports_error_iff (code output : str) :
  reports_error (success_text code output) = true
  <-> contains (lit "error") (lower code) = true
      \/ contains (lit "error") (lower output) = true.
Proof.
  split; [|apply success_text_reports_error].
  unfold reports_error, success_text. rewrite !lower_app.
  change (lower NL) with [10%N].
  intros H.
  apply (contains_across _ _ _ _ error_has_no_newline) in H.
  destruct H as [H|H]; [discriminate H|].
  apply (contains_across _ _ _ _ error_has_no_newline) in H.
  destruct H as [H|H]; [now left|].
  apply (contains_across _ _ _ _ error_has_no_newline) in H.
  destruct H as [H|H]; [discriminate H|now right].
Qed.

(** ** The driver: calls made and exceptions *)

Section DriverRuns.

Context {World : Type}.
Variable client : World -> list Entry -> World * completion.
Variable py_exec : World -> list (str * pyvalue) -> str -> World * exec_outcome.

(** Completions that are not strings use up the iterations of the loop. *)
Lemma request_steps_other :
  (forall w messages, snd (client w messages) = Other) ->
  forall (remaining : nat) (st : State World),
    exists w,
      request_steps client remaining st
      = (inl PARSE_FAILURE,
         mkState (memory st) w (lm_calls st + remaining) (exec_calls st)).
Proof.
  intros Hother. induction remaining as [|remaining IH]; intros st.
  - exists (world st). destruct st as [m w l e]. simpl.
    unfold raise. now rewrite Nat.add_0_r.
  - cbn [request_steps].
    destruct (client (world st) (history (memory st))) as [w r] eqn:Hreply.
    pose proof (Hother (world st) (history (memory st))) as Hr.
    rewrite Hreply in Hr. simpl in Hr. subst r.
    rewrite (bind_returned _ _ _ _ _
               (generate_response_run client st w Other Hreply)).
    cbn [try_extract_steps].
    destruct (IH (mkState (memory st) w (S (lm_calls st)) (exec_calls st)))
      as (w' & Hrun).
    exists w'. rewrite Hrun. cbn [memory lm_calls exec_calls].
    now rewrite Nat.add_succ_r.
Qed.

(** One step calls the model once and the interpreter at most three
    times. *)
Lemma do_step_calls (i : nat) (step : str) (st : State World) :
  let r := do_step client py_exec 3 i step st in
  lm_calls (snd r) = S (lm_calls st)
  /\ (exec_calls (snd r) <= exec_calls st + 3)%nat.
Proof.
  cbv zeta.
  remember (do_step client py_exec 3 i step st) as r eqn:Hr.
  unfold do_step in Hr. rewrite remember_then in Hr.
  unfold bind at 1 in Hr. unfold generate_response in Hr.
  cbn [memory world lm_calls exec_calls] in Hr.
  destruct (client (world st) _) as [w [s|]].
  - cbn [remember_completion] in Hr. rewrite remember_then in Hr.
    cbn [memory world lm_calls exec_calls] in Hr.
    destruct (extract_python_code s) as [[|c code]|];
      try (subst r; simpl; split; [reflexivity|lia]).
    unfold run_snippet in Hr. simpl Nat.sub in Hr.
    match type of Hr with
    | context [bind (execution_loop _ 3 3 i ?code 0) _ ?s0] =>
        destruct (execution_loop_calls py_exec 3 3 i code 0 s0) as [Hexec Hlm];
        unfold bind in Hr;
        destruct (execution_loop py_exec 3 3 i code 0 s0) as [[e|[|]] s1]
    end;
      subst r;
      cbn [fst snd memory world lm_calls exec_calls remember ret] in *;
      split; lia.
  - subst r. simpl. split; [reflexivity|lia].
Qed.

End DriverRuns.

(** X15.  When every completion of the client is an object that is not a
    string, [reasoning] calls the model exactly [max_retries] times (not at
    all when [max_retries <= 0]) and raises the parse-failure [ValueError];
    the memory holds the question and the steps prompt and nothing of the
    completions. *)
Theorem reasoning_not_text {World : Type}
    (client : World -> list Entry -> World * completion)
    (py_exec : World -> list (str * pyvalue) -> str -> World * exec_outcome)
    (st : State World) (instruction : str) (max_retries : Z) :
  (forall w messages, snd (client w messages) = Other) ->
  exists w,
    reasoning client py_exec instruction max_retries st
    = (inl PARSE_FAILURE,
       mkState
         (add_messages (memory st)
            [ mkMessage (lit "user") instruction;
              mkMessage ASSISTANT STEPS_PROMPT ])
         w (lm_calls st + Z.to_nat max_retries) (exec_calls st)).
Proof.
  intros Hother. unfold reasoning. rewrite !remember_then.
  destruct (request_steps_other client Hother (Z.to_nat max_retries)
              (mkState
                 (add_messages (memory st)
                    [ mkMessage (lit "user") instruction;
                      mkMessage ASSISTANT STEPS_PROMPT ])
                 (world st) (lm_calls st) (exec_calls st)))
    as (w & Hrun).
  exists w. apply bind_raised. exact Hrun.
Qed.

Lemma reasoning_not_text_witness :
  exists w,
    reasoning other_client idle_exec QUESTION 5 blank_state
    = (inl PARSE_FAILURE,
       mkState
         (add_messages (memory blank_state)
            [ mkMessage (lit "user") QUESTION;
              mkMessage ASSISTANT STEPS_PROMPT ])
         w 5 0).
Proof.
  apply (reasoning_not_text other_client idle_exec blank_state QUESTION 5).
  reflexivity.
Defined.

Lemma do_steps_bound {World : Type}
    (client : World -> list Entry -> World * completion)
    (py_exec : World -> list (str * pyvalue) -> str -> World * exec_outcome)
    (steps : list str) :
  forall (i : nat) (st : State World),
    let r := do_steps client py_exec 3 i steps st in
    (lm_calls (snd r) <= lm_calls st + List.length steps)%nat
    /\ (exec_calls (snd r) <= exec_calls st + 3 * List.length steps)%nat
    /\ (fst r = inr tt ->
        lm_calls (snd r) = (lm_calls st + List.length steps)%nat).
Proof.
  induction steps as [|step rest IH]; intros i st; cbv zeta.
  - simpl. repeat split; lia.
  - cbn [do_steps].
    destruct (do_step_calls client py_exec i step st) as [Hlm Hexec].
    unfold bind.
    destruct (do_step client py_exec 3 i step st) as [[e|[]] st1].
    + cbn [fst snd List.length] in *. repeat split; try lia. discriminate.
    + destruct (IH (S i) st1) as (Hlm' & Hexec' & Hok).
      cbn [fst snd List.length] in *. repeat split; try lia.
      intros Hr. specialize (Hok Hr). lia.
Qed.

(** X16.  The loop over [n] steps calls the model at most [n] times and
    the interpreter at most [3 n] times, whatever the collaborators do, and
    calls the model exactly [n] times when it ends without an exception. *)
Theorem do_steps_calls {World : Type}
    (client : World -> list Entry -> World * completion)
    (py_exec : World -> list (str * pyvalue) -> str -> World * exec_outcome)
    (steps : list str) (i : nat) (st : State World) :
  let r := do_steps client py_exec 3 i steps st in
  (lm_calls (snd r) <= lm_calls st + List.length steps)%nat
  /\ (exec_calls (snd r) <= exec_calls st + 3 * List.length steps)%nat
  /\ (fst r = inr tt ->
      lm_calls (snd r) = (lm_calls st + List.length steps)%nat).
Proof. apply do_steps_bound. Qed.

Lemma do_steps_calls_witness :
  let r := do_steps host_client host_exec 3 1
             [ lit "Compute."; lit "Conclude." ] failing_step_state in
  (lm_calls (snd r) <= 2)%nat /\ (exec_calls (snd r) <= 6)%nat
  /\ lm_calls (snd r) = 2%nat.
Proof.
  destruct (do_steps_calls host_client host_exec
              [ lit "Compute."; lit "Conclude." ] 1 failing_step_state)
    as (Hlm & Hexec & Hok).
  cbv zeta. split; [exact Hlm|]. split; [exact Hexec|].
  apply Hok. reflexivity.
Defined.

Lemma do_step_without_code {World : Type}
    (client : World -> list Entry -> World * completion)
    (py_exec : World -> list (str * pyvalue) -> str -> World * exec_outcome) :
  (forall w messages, exists s,
      snd (client w messages) = Text s
      /\ (extract_python_code s = None \/ extract_python_code s = Some [])) ->
  forall (i : nat) (step : str) (st : State World),
    exists st',
      do_step client py_exec 3 i step st = (inr tt, st')
      /\ lm_calls st' = S (lm_calls st)
      /\ exec_calls st' = exec_calls st.
Proof.
  intros Hplain i step st.
  unfold do_step. rewrite remember_then.
  unfold bind at 1. unfold generate_response.
  cbn [memory world lm_calls exec_calls].
  match goal with
  | |- context [client ?w ?h] =>
      destruct (Hplain w h) as (s & Hs & Hcode);
      destruct (client w h) as [w' r]
  end.
  simpl in Hs. subst r.
  cbn [remember_completion]. rewrite remember_then.
  eexists. split; [|split].
  - destruct Hcode as [-> | ->]; reflexivity.
  - reflexivity.
  - reflexivity.
Qed.

(** X17.  When no completion holds code to run (no python span, or an
    empty one), the loop over the steps ends without an exception, calls
    the model once per step and never calls the interpreter. *)
Theorem do_steps_without_code {World : Type}
    (client : World -> list Entry -> World * completion)
    (py_exec : World -> list (str * pyvalue) -> str -> World * exec_outcome)
    (steps : list str) :
  (forall w messages, exists s,
      snd (client w messages) = Text s
      /\ (extract_python_code s = None \/ extract_python_code s = Some [])) ->
  forall (i : nat) (st : State World),
    let r := do_steps client py_exec 3 i steps st in
    fst r = inr tt
    /\ lm_calls (snd r) = (lm_calls st + List.length steps)%nat
    /\ exec_calls (snd r) = exec_calls st.
Proof.
  intros Hplain.
  induction steps as [|step rest IH]; intros i st; cbv zeta.
  - simpl. repeat split. lia.
  - cbn [do_steps].
    destruct (do_step_without_code client py_exec Hplain i step st)
      as (st1 & Hrun & Hlm & Hexec).
    rewrite (bind_returned _ _ _ _ _ Hrun).
    destruct (IH (S i) st1) as (Hok & Hlm' & Hexec').
    cbn [List.length]. repeat split; [exact Hok|lia|lia].
Qed.

Lemma do_steps_without_code_witness :
  let r := do_steps plain_client idle_exec 3 1
             [ lit "one"; lit "two"; lit "three" ] blank_state in
  fst r = inr tt /\ lm_calls (snd r) = 3%nat /\ exec_calls (snd r) = 0%nat.
Proof.
  apply (do_steps_without_code plain_client idle_exec
           [ lit "one"; lit "two"; lit "three" ]).
  intros w messages. exists (lit "Nothing to run.").
  split; [reflexivity|]. left. reflexivity.
Defined.

(** X18.  An exception of a snippet that is not an [Exception] (such as
    [SystemExit]) is not caught: it leaves the loop over the steps at the
    first attempt, after the step message and the response have been
    recorded; nothing about it is recorded and the remaining steps are not
    run. *)
Theorem escaping_exception_aborts {World : Type}
    (client : World -> list Entry -> World * completion)
    (py_exec : World -> list (str * pyvalue) -> str -> World * exec_outcome)
    (st : State World) (i : nat) (step : str) (rest : list str)
    (s code name : str) (w0 w1 : World) :
  let asked :=
    add_message (memory st) (mkMessage ASSISTANT (step_message i step)) in
  let answered := add_message asked (mkMessage ASSISTANT s) in
  client (world st) (history asked) = (w0, Text s) ->
  extract_python_code s = Some code -> code <> [] ->
  py_exec w0 exec_globals code = (w1, RaisedBaseException name) ->
  do_steps client py_exec 3 i (step :: rest) st
  = (inl (Propagated name),
     mkState answered w1 (S (lm_calls st)) (S (exec_calls st))).
Proof.
  intros asked answered Hreply Hcode Hne Hrun.
  destruct code as [|c code]; [congruence|].
  cbn [do_steps]. apply bind_raised.
  unfold do_step. rewrite remember_then.
  rewrite (bind_returned _ _ _ _ _
             (generate_response_run client
                (mkState asked (world st) (lm_calls st) (exec_calls st))
                w0 (Text s) Hreply)).
  cbn [remember_completion]. rewrite remember_then.
  cbn [memory world lm_calls exec_calls]. fold answered.
  rewrite Hcode. unfold run_snippet. simpl Nat.sub.
  apply bind_raised. cbn [execution_loop]. apply bind_raised.
  unfold execute_python_code. cbn [memory world lm_calls exec_calls].
  now rewrite Hrun.
Qed.

Lemma escaping_exception_aborts_witness :
  raised (do_steps host_client exit_exec 3 1
            [ lit "Compute."; lit "Conclude." ] failing_step_state)
  = Some (Propagated (lit "SystemExit")).
Proof.
  rewrite (escaping_exception_aborts host_client exit_exec failing_step_state
             1 (lit "Compute.") [ lit "Conclude." ]
             (lit "<python>" ++ numpy_snippet ++ lit "</python>")
             numpy_snippet (lit "SystemExit")
             (mkHost [ Text (lit "It cannot be computed.");
                       Text (lit "<answer>Unknown.</answer>") ]
                     STANDARD_RUNS)
             (mkHost [ Text (lit "It cannot be computed.");
                       Text (lit "<answer>Unknown.</answer>") ]
                     STANDARD_RUNS)
             eq_refl eq_refl).
  - reflexivity.
  - discriminate.
  - reflexivity.
Defined.

(** X19.  When the first attempt at a snippet is not reported as failed,
    the interpreter is called once, the returned string is the only message
    recorded for the snippet, and the driver goes on with the next step. *)
Theorem passing_snippet_runs_once {World : Type}
    (client : World -> list Entry -> World * completion)
    (py_exec : World -> list (str * pyvalue) -> str -> World * exec_outcome)
    (st : State World) (i : nat) (step : str) (rest : list str)
    (s code text : str) (w0 w1 : World) (outcome : exec_outcome) :
  let asked :=
    add_message (memory st) (mkMessage ASSISTANT (step_message i step)) in
  let answered := add_message asked (mkMessage ASSISTANT s) in
  client (world st) (history asked) = (w0, Text s) ->
  extract_python_code s = Some code -> code <> [] ->
  py_exec w0 exec_globals code = (w1, outcome) ->
  returned_text code outcome = Some text ->
  reports_error text = false ->
  do_steps client py_exec 3 i (step :: rest) st
  = do_steps client py_exec 3 (S i) rest
      (mkState (add_message answered (mkMessage ASSISTANT text))
               w1 (S (lm_calls st)) (S (exec_calls st))).
Proof.
  intros asked answered Hreply Hcode Hne Hrun Htext Hok.
  destruct code as [|c code]; [congruence|].
  cbn [do_steps].
  match goal with
  | |- _ = do_steps _ _ _ _ _ ?final =>
      rewrite (bind_returned _ _ st final tt); [reflexivity|]
  end.
  unfold do_step. rewrite remember_then.
  rewrite (bind_returned _ _ _ _ _
             (generate_response_run client
                (mkState asked (world st) (lm_calls st) (exec_calls st))
                w0 (Text s) Hreply)).
  cbn [remember_completion]. rewrite remember_then.
  cbn [memory world lm_calls exec_calls]. fold answered.
  rewrite Hcode. unfold run_snippet. simpl Nat.sub.
  rewrite (bind_returned _ _ _
             (mkState (add_message answered (mkMessage ASSISTANT text))
                      w1 (S (lm_calls st)) (S (exec_calls st))) true).
  - reflexivity.
  - rewrite (execution_loop_attempt py_exec
               (mkState answered w0 (S (lm_calls st)) (exec_calls st))
               2 3 i (c :: code) 0 w1 outcome text Hrun Htext), Hok.
    reflexivity.
Qed.

Lemma passing_snippet_runs_once_witness :
  let r := do_steps host_client host_exec 3 1 [ lit "Import." ]
             (mkState (mkMemory 115200 [])
                (mkHost [ Text (lit "<python>" ++ os_snippet ++ lit "</python>") ]
                        STANDARD_RUNS) 0 0) in
  raised r = None /\ exec_calls (snd r) = 1%nat
  /\ nth_error (contents (snd r)) 2
     = Some (success_text os_snippet (lit "done" ++ NL)).
Proof.
  cbv zeta.
  rewrite (passing_snippet_runs_once host_client host_exec
             (mkState (mkMemory 115200 [])
                (mkHost [ Text (lit "<python>" ++ os_snippet ++ lit "</python>") ]
                        STANDARD_RUNS) 0 0)
             1 (lit "Import.") []
             (lit "<python>" ++ os_snippet ++ lit "</python>")
             os_snippet (success_text os_snippet (lit "done" ++ NL))
             (mkHost [] STANDARD_RUNS) (mkHost [] STANDARD_RUNS)
             (Completed (lit "done" ++ NL))
             eq_refl eq_refl).
  - vm_compute. repeat split.
  - discriminate.
  - reflexivity.
  - reflexivity.
  - reflexivity.
Defined.

(** X20.  When the first completion is a string with [n] step spans and
    [reasoning] returns, it has called the model exactly [n + 2] times
    (the plan, one call per step, the final answer) and the interpreter at
    most [3 n] times, and what it returns is a string. *)
Theorem reasoning_calls {World : Type}
    (client : World -> list Entry -> World * completion)
    (py_exec : World -> list (str * pyvalue) -> str -> World * exec_outcome)
    (st : State World) (instruction : str) (max_retries : Z)
    (w : World) (s : str) (steps : list str) (final : completion) :
  1 <= max_retries ->
  let asked :=
    add_messages (memory st)
      [ mkMessage (lit "user") instruction; mkMessage ASSISTANT STEPS_PROMPT ] in
  client (world st) (history asked) = (w, Text s) ->
  extract_steps s = Some steps ->
  let r := reasoning client py_exec instruction max_retries st in
  fst r = inr final ->
  lm_calls (snd r) = (lm_calls st + List.length steps + 2)%nat
  /\ (exec_calls (snd r) <= exec_calls st + 3 * List.length steps)%nat
  /\ exists text, final = Text text.
Proof.
  intros Hmax asked Hreply Hsteps r Hfinal.
  pose (answered :=
          mkState (add_message asked (mkMessage ASSISTANT s))
                  w (S (lm_calls st)) (exec_calls st)).
  assert (Hr : r
               = bind (do_steps client py_exec 3 1 steps)
                   (fun _ =>
                    bind (remember ASSISTANT ANSWER_PROMPT)
                      (fun _ =>
                       bind (generate_response client)
                         (fun final_response =>
                          bind (remember_completion ASSISTANT final_response)
                            (fun _ => ret final_response))))
                   answered).
  { subst r. unfold reasoning. rewrite !remember_then.
    destruct (Z.to_nat max_retries) as [|remaining] eqn:Hn; [lia|].
    rewrite (bind_returned _ _ _ _ _
               (request_steps_text client
                  (mkState asked (world st) (lm_calls st) (exec_calls st))
                  remaining w s Hreply)).
    rewrite Hsteps.
    cbn [remember_completion memory world lm_calls exec_calls].
    rewrite remember_then. reflexivity. }
  clearbody r.
  destruct (do_steps_bound client py_exec steps 1 answered)
    as (_ & Hexec & Hlm).
  unfold bind at 1 in Hr.
  destruct (do_steps client py_exec 3 1 steps answered) as [[e|[]] st1].
  - subst r. discriminate Hfinal.
  - specialize (Hlm eq_refl).
    cbn [fst snd answered memory world lm_calls exec_calls] in Hexec, Hlm.
    rewrite remember_then in Hr.
    unfold bind at 1 in Hr. unfold generate_response in Hr.
    cbn [memory world lm_calls exec_calls] in Hr.
    destruct (client (world st1) _) as [w' [text|]].
    + cbn [remember_completion] in Hr. rewrite remember_then in Hr.
      unfold ret in Hr. subst r.
      cbn [fst snd lm_calls exec_calls] in *.
      injection Hfinal as <-.
      repeat split; [lia|lia|now exists text].
    + subst r. discriminate Hfinal.
Qed.

Lemma reasoning_calls_witness :
  let r := reasoning host_client host_exec QUESTION 5 (init 115200 square_host) in
  lm_calls (snd r) = 4%nat /\ (exec_calls (snd r) <= 6)%nat.
Proof.
  assert (Hmax : 1 <= 5) by discriminate.
  destruct (reasoning_calls host_client host_exec (init 115200 square_host)
              QUESTION 5
              (mkHost (tl (replies square_host)) STANDARD_RUNS)
              plan_response
              [ lit "Take the square root."; lit "Check it is an integer." ]
              (Text (lit "<answer>Yes, 4 is a perfect square.</answer>"))
              Hmax eq_refl eq_refl)
    as (Hlm & Hexec & _).
  - vm_compute. reflexivity.
  - cbv zeta. split; [exact Hlm|exact Hexec].
Defined.

(** X21.  After [add_message] the history is empty or ends with the
    message just added: the newest message is never dropped while an older
    one is kept. *)
Theorem add_message_newest_last (self : Memory) (m : Message) :
  history (add_message self m) = []
  \/ exists front, history (add_message self m) = front ++ [ to_dict m ].
Proof.
  destruct (update_context_suffix
              (mkMemory (context_length self) (history self ++ [to_dict m])))
    as (dropped & Hsplit).
  simpl in Hsplit. fold (add_message self m) in Hsplit.
  destruct (history (add_message self m)) as [|x kept] eqn:Hkept; [now left|].
  right.
  assert (Hne : x :: kept <> []) by discriminate.
  destruct (exists_last Hne) as (front & y & Hlast).
  rewrite Hlast in *. rewrite app_assoc in Hsplit.
  apply app_inj_tail in Hsplit. destruct Hsplit as [_ <-].
  now exists front.
Qed.

Lemma str_eqb_eq (a : str) : forall b, str_eqb a b = true <-> a = b.
Proof.
  induction a as [|x a IH]; intros [|y b]; simpl; split; intros H;
    try reflexivity; try discriminate.
  - apply andb_true_iff in H. destruct H as [Hx Ha].
    apply N.eqb_eq in Hx. apply IH in Ha. congruence.
  - injection H as -> ->. rewrite N.eqb_refl. now apply IH.
Qed.

Lemma str_eqb_neq (a b : str) : a <> b -> str_eqb a b = false.
Proof.
  intros Hne. destruct (str_eqb a b) eqn:H; [|reflexivity].
  apply str_eqb_eq in H. contradiction.
Qed.

(** X22.  With a mode that is none of [start], [end], [mix] and [random],
    a content of more than [max_tokens] tokens is not shortened: it is
    kept as it is and the ellipsis is appended to it. *)
Theorem truncate_unknown_mode
    (random_sample : list str -> Z -> option (list str))
    (self : Message) (max_tokens : Z) (mode : str) :
  mode <> lit "start" -> mode <> lit "end" ->
  mode <> lit "mix" -> mode <> lit "random" ->
  len (split (content self)) > max_tokens ->
  truncate random_sample self max_tokens mode
  = Some (mkMessage (role self) (content self ++ ELLIPSIS)).
Proof.
  intros Hstart Hend Hmix Hrandom Hgt.
  rewrite truncate_over by exact Hgt.
  now rewrite !str_eqb_neq by assumption.
Qed.

Lemma truncate_unknown_mode_witness :
  truncate first_sample (message "user" "a  b c") 1 (lit "middle")
  = Some (message "user" "a  b c...").
Proof.
  apply (truncate_unknown_mode first_sample (message "user" "a  b c") 1
           (lit "middle"));
    try (intros H; vm_compute in H; discriminate H).
  reflexivity.
Defined.
